(** * github-org-analyser: the expiring cache, the remote client and the
      report builders, embedded from the TypeScript/JavaScript sources.

    Part I, the code:
    - [JS]: the fragment of JavaScript values, exceptions and coercions the
      sources rely on, and the host ([Platform]) they run on;
    - [Cache]: [src/utils/cache.ts], over a [localStorage] modelled as a
      finite map from keys to stored strings;
    - [GitHubApi]: the two probes of [src/services/githubApi.ts] that look
      at HTTP status codes;
    - [JSArray]: [sort], [slice] and [Set] as the builders use them;
    - [Builders]: the repository filters, loops, comparators, sorting and
      truncation steps of the report components;
    - [CacheOrg]: [clearOrgCaches] of [src/utils/cache.ts];
    - [GitHubClient]: requests with parameters and the paginated getters
      of [src/services/githubApi.ts];
    - [Config]: the stored user settings of [src/utils/config.ts].

    Part II, the vocabulary of the statements ([...Spec]) and the concrete
    hosts, stores, networks and organisations they are tried on
    ([TableHost], [...Fixture]).

    Part III, the theorems, one module per subject. *)

From Stdlib Require Import ZArith Lia Ascii.
From stdpp Require Import base option list strings gmap fin_maps sorting pretty.

#[local] Open Scope Z_scope.

(* ===================================================================== *)
(** ** JavaScript fragment *)
(* ===================================================================== *)

Module JS.

(** Values that [JSON.parse] can produce, plus [undefined] (the result of
    reading a missing property) and [Date] objects (report payloads hold
    them before they are serialised).  Numbers are the integral timestamps
    and counters the sources compute with; they stay far below 2^53, where
    IEEE doubles are exact, so they are modelled by [Z]. *)
#[warnings="-register-all"] Inductive jsval : Type :=
| JUndefined
| JNull
| JBool (b : bool)
| JNum (n : Z)
| JStr (s : string)
| JDate (ms : Z)
| JArr (items : list jsval)
| JObj (fields : list (string * jsval)).

(** Exceptions, distinguished by their [name] property as far as the
    sources look at it. *)
Inductive exn : Type :=
| SyntaxError
| TypeError
| QuotaExceededError
| HttpError (status : Z)
| OtherError (name : string).

(** The [status] property of a caught error: only the error built by
    [GitHubApiService.get] carries one. *)
Definition exn_status (e : exn) : option Z :=
  match e with
  | HttpError status => Some status
  | _ => None
  end.

(** Result of running a piece of code: a value or a thrown exception. *)
Inductive outcome (A : Type) : Type :=
| Ok (a : A)
| Throw (e : exn).
Arguments Ok {A} a.
Arguments Throw {A} e.

(** Own-property lookup on an object literal / parsed object. *)
Fixpoint assoc (p : string) (fields : list (string * jsval)) : option jsval :=
  match fields with
  | [] => None
  | (k, v) :: rest => if String.eqb k p then Some v else assoc p rest
  end.

(** [v.p] for a property name [p] that no primitive wrapper or array
    defines ([data], [expiresAt]): reading it from [null] or [undefined]
    throws a TypeError, from an object it yields the field or
    [undefined], from any other value [undefined]. *)
Definition get_prop (v : jsval) (p : string) : outcome jsval :=
  match v with
  | JUndefined | JNull => Throw TypeError
  | JObj fields => Ok (default JUndefined (assoc p fields))
  | _ => Ok JUndefined
  end.

(** The parts of the host that are not code of this repository: the JSON
    codec, the quota policy of [localStorage.setItem], and the numeric
    coercion of strings and objects. *)
Class Platform : Type := {
  (** [JSON.parse]: [None] stands for a thrown SyntaxError. *)
  JSON_parse : string -> option jsval;
  (** [JSON.stringify]: [None] stands for a thrown TypeError. *)
  JSON_stringify : jsval -> option string;
  (** whether [setItem key value] fits in the quota of the store *)
  storage_fits : gmap string string -> string -> string -> bool;
  (** [Number(s)] for a string, [None] standing for NaN *)
  StringToNumber : string -> option Z;
  (** [Number(o)] for an array or object, [None] standing for NaN *)
  ObjectToNumber : jsval -> option Z;
}.

(** [ToNumber], with [None] for NaN. *)
Definition ToNumber `{Platform} (v : jsval) : option Z :=
  match v with
  | JUndefined => None
  | JNull => Some 0
  | JBool b => Some (if b then 1 else 0)
  | JNum n => Some n
  | JStr s => StringToNumber s
  | JDate ms => Some ms
  | JArr _ | JObj _ => ObjectToNumber v
  end.

(** [n > v] for a number [n]: false whenever [v] coerces to NaN. *)
Definition num_gt `{Platform} (n : Z) (v : jsval) : bool :=
  match ToNumber v with
  | Some m => m <? n
  | None => false
  end.

(** Truthiness of the result of [localStorage.getItem]: [null] and the
    empty string are falsy. *)
Definition truthy_item (o : option string) : bool :=
  match o with
  | None => false
  | Some s => negb (String.eqb s "")
  end.

(** [s.startsWith(p)] *)
Definition startsWith (s p : string) : bool := String.prefix p s.

End JS.

(* ===================================================================== *)
(** ** src/utils/cache.ts *)
(* ===================================================================== *)

Module Cache.
Import JS.

(** [localStorage]: a finite map from keys to stored strings. *)
Abbreviation Storage := (gmap string string).

(** Code that reads and writes [localStorage] and may throw. *)
Definition M (A : Type) : Type := Storage -> outcome A * Storage.

Definition ret {A} (a : A) : M A := fun st => (Ok a, st).
Definition throw {A} (e : exn) : M A := fun st => (Throw e, st).
Definition bind {A B} (m : M A) (k : A -> M B) : M B :=
  fun st =>
    match m st with
    | (Ok a, st') => k a st'
    | (Throw e, st') => (Throw e, st')
    end.
(** [try { body } catch (e) { handler(e) }] *)
Definition try_catch {A} (body : M A) (handler : exn -> M A) : M A :=
  fun st =>
    match body st with
    | (Ok a, st') => (Ok a, st')
    | (Throw e, st') => handler e st'
    end.

Notation "'do' x <- m ; k" := (bind m (fun x => k))
  (at level 10, x name, m at level 100, k at level 200).
Notation "'run' m ; k" := (bind m (fun _ => k))
  (at level 10, m at level 100, k at level 200).

(** [localStorage.getItem(key)] *)
Definition getItem (key : string) : M (option string) :=
  fun st => (Ok (st !! key), st).
(** [localStorage.setItem(key, value)] *)
Definition setItem `{Platform} (key value : string) : M unit :=
  fun st =>
    if storage_fits st key value
    then (Ok tt, <[key := value]> st)
    else (Throw QuotaExceededError, st).
(** [localStorage.removeItem(key)] *)
Definition removeItem (key : string) : M unit :=
  fun st => (Ok tt, delete key st).
(** The keys [localStorage.key(0)], ..., [localStorage.key(length-1)]. *)
Definition storage_keys : M (list string) :=
  fun st => (Ok (map_to_list st).*1, st).

(** Lifting of the platform's partial operations. *)
Definition parse `{Platform} (s : string) : M jsval :=
  match JSON_parse s with
  | Some v => ret v
  | None => throw SyntaxError
  end.
Definition stringify `{Platform} (v : jsval) : M string :=
  match JSON_stringify v with
  | Some s => ret s
  | None => throw TypeError
  end.
Definition prop (v : jsval) (p : string) : M jsval :=
  fun st => (get_prop v p, st).

Definition CACHE_PREFIX : string := "github-org-analyser".

(** [`${CACHE_PREFIX}-${orgName}-${dataType}`] *)
Definition getCacheKey (orgName dataType : string) : string :=
  CACHE_PREFIX +:+ "-" +:+ orgName +:+ "-" +:+ dataType.

(** The object literal built by [saveToCache]. *)
Definition cacheObject (data : jsval) (now ttlHours : Z) : jsval :=
  JObj [("data", data);
        ("timestamp", JNum now);
        ("expiresAt", JNum (now + ttlHours * 60 * 60 * 1000))].

(** Scan of [clearExpiredCaches]: the keys under the prefix whose entry is
    expired or makes the inner [try] block throw. *)
Fixpoint sweep_scan `{Platform} (now : Z) (keys : list string) : M (list string) :=
  match keys with
  | [] => ret []
  | key :: rest =>
      do mark <-
        (if negb (String.eqb key "") && startsWith key CACHE_PREFIX then
           try_catch
             (do cached <- getItem key;
              do cacheObject <- parse (default "null" cached);
              do expiresAt <- prop cacheObject "expiresAt";
              ret (num_gt now expiresAt))
             (fun _ => ret true)
         else ret false);
      do more <- sweep_scan now rest;
      ret (if mark : bool then key :: more else more)
  end.

(** [keysToRemove.forEach(key => localStorage.removeItem(key))] *)
Fixpoint removeAll (keys : list string) : M unit :=
  match keys with
  | [] => ret tt
  | key :: rest => run removeItem key; removeAll rest
  end.

Definition clearExpiredCaches `{Platform} (now : Z) : M unit :=
  try_catch
    (do keys <- storage_keys;
     do keysToRemove <- sweep_scan now keys;
     removeAll keysToRemove)
    (fun _ => ret tt).

Definition saveToCache `{Platform} (now : Z)
    (orgName dataType : string) (data : jsval) (ttlHours : Z) : M unit :=
  try_catch
    (let key := getCacheKey orgName dataType in
     do text <- stringify (cacheObject data now ttlHours);
     setItem key text)
    (fun e =>
       match e with
       | QuotaExceededError => clearExpiredCaches now
       | _ => ret tt
       end).

Definition loadFromCache `{Platform} (now : Z)
    (orgName dataType : string) : M jsval :=
  try_catch
    (let key := getCacheKey orgName dataType in
     do cached <- getItem key;
     if negb (truthy_item cached) then ret JNull
     else
       do cacheObject <- parse (default "" cached);
       do expiresAt <- prop cacheObject "expiresAt";
       if num_gt now expiresAt
       then (run removeItem key; ret JNull)
       else prop cacheObject "data")
    (fun _ => ret JNull).

Definition clearCache (orgName dataType : string) : M unit :=
  try_catch (removeItem (getCacheKey orgName dataType)) (fun _ => ret tt).

End Cache.

(* ===================================================================== *)
(** ** src/services/githubApi.ts *)
(* ===================================================================== *)

Module GitHubApi.
Import JS.

(** What [fetch] resolves to: the status line and, when it can be read,
    the JSON body. *)
Record Response : Type := {
  status : Z;
  json : option jsval;
}.

(** [fetch] either resolves to a response or rejects (network failure,
    which surfaces as a TypeError). *)
Inductive FetchResult : Type :=
| Rejected
| Resolved (response : Response).

(** The remote service as seen through [fetch]: one result per URL. *)
Definition Network : Type := string -> FetchResult.

Definition GITHUB_API_BASE : string := "https://api.github.com".

(** [response.ok]: the status is in the range 200-299. *)
Definition ok (r : Response) : bool :=
  (200 <=? status r) && (status r <=? 299).

(** [get(endpoint)] without query parameters. *)
Definition get (net : Network) (endpoint : string) : outcome jsval :=
  match net (GITHUB_API_BASE +:+ endpoint) with
  | Rejected => Throw TypeError
  | Resolved response =>
      if negb (ok response) then Throw (HttpError (status response))
      else match json response with
           | Some v => Ok v
           | None => Throw SyntaxError
           end
  end.

Definition protection_endpoint (owner repo branch : string) : string :=
  "/repos/" +:+ owner +:+ "/" +:+ repo +:+ "/branches/" +:+ branch
    +:+ "/protection".

Definition isBranchProtected (net : Network)
    (owner repo branch : string) : outcome bool :=
  match get net (protection_endpoint owner repo branch) with
  | Ok _ => Ok true
  | Throw error =>
      if decide (exn_status error = Some 404) then Ok false
      else Throw error
  end.

Definition vulnerability_alerts_url (owner repo : string) : string :=
  GITHUB_API_BASE +:+ "/repos/" +:+ owner +:+ "/" +:+ repo
    +:+ "/vulnerability-alerts".

Definition isDependabotEnabled (net : Network)
    (owner repo : string) : outcome bool :=
  match net (vulnerability_alerts_url owner repo) with
  | Resolved response => Ok (status response =? 204)
  | Rejected => Ok true
  end.

End GitHubApi.

(* ===================================================================== *)
(** ** Array methods used by the report builders *)
(* ===================================================================== *)

Module JSArray.

Section Sort.
Context {A : Type} (compareFn : A -> A -> Z).

(** Insertion of [x] in front of the first element it does not have to
    follow ([compareFn x y <= 0]). *)
Fixpoint insert_before (x : A) (l : list A) : list A :=
  match l with
  | [] => [x]
  | y :: rest =>
      if compareFn x y <=? 0 then x :: y :: rest
      else y :: insert_before x rest
  end.

(** [Array.prototype.sort(compareFn)]: a stable sort; an element moves
    behind a later one only when the comparator returns a positive
    number for the pair. *)
Fixpoint sort (l : list A) : list A :=
  match l with
  | [] => []
  | x :: rest => insert_before x (sort rest)
  end.
End Sort.

(** [l.slice(0, end)] for an integral [end]: a negative [end] counts from
    the end of the array. *)
Definition slice0 {A : Type} (l : list A) (end_ : Z) : list A :=
  let len := Z.of_nat (length l) in
  let final := if end_ <? 0 then Z.max (len + end_) 0 else Z.min end_ len in
  take (Z.to_nat final) l.

(** [new Set()] filled with [add], read back with [Array.from]: insertion
    order, no duplicates. *)
Definition set_add (s : list string) (x : string) : list string :=
  if decide (x ∈ s) then s else s ++ [x].

End JSArray.

(* ===================================================================== *)
(** ** Report builders *)
(* ===================================================================== *)

Module Builders.

(** The fields of a repository record that the builders read.  Dates are
    the epoch milliseconds of the parsed [Date]. *)
Record Repo : Type := {
  name : string;
  html_url : string;
  archived : bool;
  fork : bool;
  private : bool;
  default_branch : string;
  pushed_at : Z;
}.

Record Branch : Type := { branch_name : string }.

Record PullRequest : Type := {
  number : Z;
  pr_html_url : string;
  created_at : Z;
  updated_at : Z;
}.

(** [branchDetails.commit]: the login of [commit.author] when there is
    one, and the name and date of [commit.commit.author]. *)
Record CommitInfo : Type := {
  author_login : option string;
  author_name : string;
  author_date : Z;
}.

Record BranchDetails : Type := { commit : option CommitInfo }.

(** A Dependabot alert: the severities of [security_advisory] and
    [security_vulnerability], where present. *)
Record Alert : Type := {
  advisory_severity : option string;
  vulnerability_severity : option string;
}.

(** Truthiness of an optional string: [undefined] and [""] are falsy. *)
Definition truthy (o : option string) : bool :=
  match o with
  | Some s => negb (String.eqb s "")
  | None => false
  end.

(** [a || b] on optional strings. *)
Definition or_else (a b : option string) : option string :=
  if truthy a then a else b.

(** The methods of the [apiService] object that the modelled builders
    call.  None of them throws: the client turns failures into [null] or
    a shorter list. *)
Record ApiService : Type := {
  getLastPullRequest : string -> string -> option PullRequest;
  getRepoBranches : string -> string -> list Branch;
  getOpenPullRequests : string -> string -> list PullRequest;
  getBranchDetails : string -> string -> string -> option BranchDetails;
}.

(** Requests issued through [apiService], in the order of issue. *)
Inductive Call : Type :=
| CallLastPullRequest (owner repo : string)
| CallRepoBranches (owner repo : string)
| CallOpenPullRequests (owner repo : string)
| CallBranchDetails (owner repo branch : string).

(** Builder code: computes a value and appends to the log of requests. *)
Definition Fetch (A : Type) : Type := list Call -> A * list Call.

Definition ret {A} (a : A) : Fetch A := fun log => (a, log).
Definition bind {A B} (m : Fetch A) (k : A -> Fetch B) : Fetch B :=
  fun log => let (a, log') := m log in k a log'.
Definition request {A} (c : Call) (answer : A) : Fetch A :=
  fun log => (answer, log ++ [c]).

Notation "'await' x <- m ; k" := (bind m (fun x => k))
  (at level 10, x name, m at level 100, k at level 200).

(** [Promise.all(items.map(f))] *)
Fixpoint all {A B} (f : A -> Fetch B) (items : list A) : Fetch (list B) :=
  match items with
  | [] => ret []
  | x :: rest =>
      await y <- f x;
      await ys <- all f rest;
      ret (y :: ys)
  end.

(** [for (const x of items) { acc = body(acc, x) }] *)
Fixpoint for_of {A S} (body : S -> A -> Fetch S) (items : list A) (acc : S)
    : Fetch S :=
  match items with
  | [] => ret acc
  | x :: rest =>
      await acc' <- body acc x;
      for_of body rest acc'
  end.

(** [repos.filter(repo => !repo.archived && !repo.fork)] *)
Definition notArchivedNotFork (repo : Repo) : bool :=
  negb (archived repo) && negb (fork repo).

(* ------------------------------------------------------------------- *)
(** *** src/components/CleanupNeeded.tsx *)
(* ------------------------------------------------------------------- *)

Module CleanupNeeded.

(** The thresholds and cutoff dates fixed at the start of a build, and
    the clock reading [now]. *)
Record Settings : Type := {
  branchWarningThreshold : Z;
  inactiveCutoffDate : Z;
  staleBranchCutoffDate : Z;
  prCutoffDate : Z;
  now : Z;
}.

Record InactiveRow : Type := {
  inactive_name : string;
  inactive_url : string;
  lastCommitDate : Z;
  lastPRDate : option Z;
  lastActivity : Z;
  isLastActivityPR : bool;
  daysInactive : Z;
}.

(** Rows of the stale-branch list: the warning marker
    [{isWarning: true, branchCount, staleBranchCount: 0}] and the
    detailed row [{isWarning: false, staleBranchCount, totalBranches,
    authors}]. *)
Inductive StaleRow : Type :=
| WarningRow (repoName repoUrl : string) (branchCount : Z)
| DetailRow (repoName repoUrl : string)
    (staleBranchCount totalBranches : Z) (authors : list string).

Definition repoName (r : StaleRow) : string :=
  match r with
  | WarningRow n _ _ | DetailRow n _ _ _ _ => n
  end.
Definition isWarning (r : StaleRow) : bool :=
  match r with
  | WarningRow _ _ _ => true
  | DetailRow _ _ _ _ _ => false
  end.
(** Read by the comparator only on warning rows. *)
Definition branchCount (r : StaleRow) : Z :=
  match r with
  | WarningRow _ _ n => n
  | DetailRow _ _ _ _ _ => 0
  end.
Definition staleBranchCount (r : StaleRow) : Z :=
  match r with
  | WarningRow _ _ _ => 0
  | DetailRow _ _ n _ _ => n
  end.

Record OldestPR : Type := {
  daysOpen : Z;
  oldest_number : option Z;
  oldest_url : option string;
}.

Record OldPRRow : Type := {
  pr_repoName : string;
  pr_repoUrl : string;
  oldPRCount : Z;
  totalPRs : Z;
  oldestPR : OldestPR;
}.

(** The payload handed to [saveToCache] (and to the state setters). *)
Record Report : Type := {
  inactiveRepos : list InactiveRow;
  totalInactive : Z;
  staleBranches : list StaleRow;
  oldPRs : list OldPRRow;
  totalStaleBranchRepos : Z;
  totalOldPRRepos : Z;
  totalOldPRs : Z;
}.

Definition activeRepos (repos : list Repo) : list Repo :=
  filter (fun repo => notArchivedNotFork repo) repos.

(** [Math.floor(ms / (1000 * 60 * 60 * 24))] *)
Definition days (ms : Z) : Z := ms / (1000 * 60 * 60 * 24).

(** Lines 97-114: the archive-candidate check. *)
Definition inactiveStep (cfg : Settings) (repo : Repo)
    (lastPR : option PullRequest) : list InactiveRow :=
  let pushedAt := pushed_at repo in
  let lastPRDate := updated_at <$> lastPR in
  let isLastPR :=
    match lastPRDate with
    | Some d => pushedAt <? d
    | None => false
    end in
  let lastActivity :=
    match lastPRDate with
    | Some d => if pushedAt <? d then d else pushedAt
    | None => pushedAt
    end in
  let daysSinceActivity := days (now cfg - lastActivity) in
  if lastActivity <? inactiveCutoffDate cfg then
    [ {| inactive_name := name repo;
         inactive_url := html_url repo;
         lastCommitDate := pushedAt;
         lastPRDate := lastPRDate;
         lastActivity := lastActivity;
         isLastActivityPR := isLastPR;
         daysInactive := daysSinceActivity |} ]
  else [].

(** [branches.filter(branch => branch.name !== repo.default_branch)] *)
Definition nonDefaultBranches (repo : Repo) (branches : list Branch)
    : list Branch :=
  filter (fun branch => branch_name branch ≠ default_branch repo) branches.

(** The body of [allBranchDetails.forEach]: counts a stale branch and
    records its author. *)
Definition checkBranch (cfg : Settings) (acc : Z * list string)
    (branchDetails : option BranchDetails) : Z * list string :=
  match branchDetails with
  | Some {| commit := Some c |} =>
      if author_date c <? staleBranchCutoffDate cfg then
        let authorIdentifier :=
          or_else (author_login c) (Some (author_name c)) in
        (acc.1 + 1,
         if truthy authorIdentifier
         then JSArray.set_add acc.2 (default "" authorIdentifier)
         else acc.2)
      else acc
  | _ => acc
  end.

(** Lines 116-164: the stale-branch check, with its guard on the number
    of branches. *)
Definition staleBranchStep (api : ApiService) (cfg : Settings)
    (orgName : string) (repo : Repo) (branches : list Branch)
    : Fetch (list StaleRow) :=
  let nonDefault := nonDefaultBranches repo branches in
  if branchWarningThreshold cfg <? Z.of_nat (length nonDefault) then
    ret [ WarningRow (name repo) (html_url repo)
            (Z.of_nat (length nonDefault)) ]
  else
    await allBranchDetails <-
      all (fun branch =>
             request
               (CallBranchDetails orgName (name repo) (branch_name branch))
               (getBranchDetails api orgName (name repo)
                  (branch_name branch)))
          nonDefault;
    let result := foldl (checkBranch cfg) (0, []) allBranchDetails in
    ret (if 0 <? result.1
         then [ DetailRow (name repo) (html_url repo) result.1
                  (Z.of_nat (length nonDefault)) result.2 ]
         else []).

(** The body of [for (const pr of openPRs)]. *)
Definition checkPR (cfg : Settings) (acc : Z * OldestPR) (pr : PullRequest)
    : Z * OldestPR :=
  let createdDate := created_at pr in
  let daysOpen' := days (now cfg - createdDate) in
  if createdDate <? prCutoffDate cfg then
    (acc.1 + 1,
     if daysOpen acc.2 <? daysOpen'
     then {| daysOpen := daysOpen';
             oldest_number := Some (number pr);
             oldest_url := Some (pr_html_url pr) |}
     else acc.2)
  else acc.

(** Lines 166-192: the old-pull-request check. *)
Definition oldPRStep (cfg : Settings) (repo : Repo)
    (openPRs : list PullRequest) : list OldPRRow :=
  let result :=
    foldl (checkPR cfg)
      (0, {| daysOpen := 0; oldest_number := None; oldest_url := None |})
      openPRs in
  if 0 <? result.1 then
    [ {| pr_repoName := name repo;
         pr_repoUrl := html_url repo;
         oldPRCount := result.1;
         totalPRs := Z.of_nat (length openPRs);
         oldestPR := result.2 |} ]
  else [].

(** The three result arrays filled by the loop. *)
Record Collected : Type := {
  reposWithActivity : list InactiveRow;
  reposWithStaleBranches : list StaleRow;
  reposWithOldPRs : list OldPRRow;
}.

(** Lines 87-192: one iteration of the loop over the active
    repositories. *)
Definition processRepo (api : ApiService) (cfg : Settings)
    (orgName : string) (acc : Collected) (repo : Repo) : Fetch Collected :=
  await lastPR <-
    request (CallLastPullRequest orgName (name repo))
      (getLastPullRequest api orgName (name repo));
  await branches <-
    request (CallRepoBranches orgName (name repo))
      (getRepoBranches api orgName (name repo));
  await openPRs <-
    request (CallOpenPullRequests orgName (name repo))
      (getOpenPullRequests api orgName (name repo));
  await staleRows <- staleBranchStep api cfg orgName repo branches;
  ret {| reposWithActivity :=
           reposWithActivity acc ++ inactiveStep cfg repo lastPR;
         reposWithStaleBranches := reposWithStaleBranches acc ++ staleRows;
         reposWithOldPRs := reposWithOldPRs acc ++ oldPRStep cfg repo openPRs |}.

Definition compareInactive (a b : InactiveRow) : Z :=
  daysInactive b - daysInactive a.

Definition compareStale (a b : StaleRow) : Z :=
  if isWarning a && negb (isWarning b) then -1
  else if negb (isWarning a) && isWarning b then 1
  else if isWarning a && isWarning b then branchCount b - branchCount a
  else staleBranchCount b - staleBranchCount a.

Definition compareOldPR (a b : OldPRRow) : Z :=
  daysOpen (oldestPR b) - daysOpen (oldestPR a).

(** Lines 195-233: sorting, totals and the payload. *)
Definition finish (c : Collected) : Report :=
  let reposWithActivity := JSArray.sort compareInactive (reposWithActivity c) in
  let reposWithStaleBranches :=
    JSArray.sort compareStale (reposWithStaleBranches c) in
  let reposWithOldPRs := JSArray.sort compareOldPR (reposWithOldPRs c) in
  let totalOldPRCount :=
    foldl (fun sum repo => sum + oldPRCount repo) 0 reposWithOldPRs in
  {| inactiveRepos := reposWithActivity;
     totalInactive := Z.of_nat (length reposWithActivity);
     staleBranches := reposWithStaleBranches;
     oldPRs := reposWithOldPRs;
     totalStaleBranchRepos := Z.of_nat (length reposWithStaleBranches);
     totalOldPRRepos := Z.of_nat (length reposWithOldPRs);
     totalOldPRs := totalOldPRCount |}.

(** Lines 57-233 of [fetchData], once the repository list has been
    fetched: the report and the requests issued for it. *)
Definition build (api : ApiService) (cfg : Settings) (orgName : string)
    (repos : list Repo) : Fetch Report :=
  await collected <-
    for_of (processRepo api cfg orgName) (activeRepos repos)
      {| reposWithActivity := [];
         reposWithStaleBranches := [];
         reposWithOldPRs := [] |};
  ret (finish collected).

End CleanupNeeded.

(* ------------------------------------------------------------------- *)
(** *** src/components/CleanupNeeded.jsx (the earlier cleanup builder) *)
(* ------------------------------------------------------------------- *)

Module CleanupNeededJsx.
Import CleanupNeeded.

(** [config.displayLimits], as far as this builder reads it. *)
Record DisplayLimits : Type := {
  maxStaleBranchRepos : Z;
  maxOldPRRepos : Z;
}.

Record Report : Type := {
  staleBranches : list StaleRow;
  oldPRs : list OldPRRow;
  totalStaleBranchRepos : Z;
  totalOldPRRepos : Z;
  totalOldPRs : Z;
}.

Definition activeRepos (repos : list Repo) : list Repo :=
  filter (fun repo => notArchivedNotFork repo) repos.

(** Lines 164-196: sorting, totals, truncation and the payload. *)
Definition finish (limits : DisplayLimits)
    (reposWithStaleBranches : list StaleRow)
    (reposWithOldPRs : list OldPRRow) : Report :=
  let reposWithStaleBranches :=
    JSArray.sort compareStale reposWithStaleBranches in
  let totalStaleBranchRepos := Z.of_nat (length reposWithStaleBranches) in
  let staleBranches :=
    JSArray.slice0 reposWithStaleBranches (maxStaleBranchRepos limits) in
  let reposWithOldPRs := JSArray.sort compareOldPR reposWithOldPRs in
  let totalOldPRCount :=
    foldl (fun sum repo => sum + oldPRCount repo) 0 reposWithOldPRs in
  let totalOldPRRepos := Z.of_nat (length reposWithOldPRs) in
  let oldPRs := JSArray.slice0 reposWithOldPRs (maxOldPRRepos limits) in
  {| staleBranches := staleBranches;
     oldPRs := oldPRs;
     totalStaleBranchRepos := totalStaleBranchRepos;
     totalOldPRRepos := totalOldPRRepos;
     totalOldPRs := totalOldPRCount |}.

End CleanupNeededJsx.

(* ------------------------------------------------------------------- *)
(** *** src/components/ArchiveCandidates.jsx *)
(* ------------------------------------------------------------------- *)

Module ArchiveCandidates.

Definition activeRepos (repos : list Repo) : list Repo :=
  filter (fun repo => notArchivedNotFork repo) repos.

End ArchiveCandidates.

(* ------------------------------------------------------------------- *)
(** *** src/components/SecurityGovernanceRepo.jsx *)
(* ------------------------------------------------------------------- *)

Module SecurityGovernanceRepo.
Import JS.

Record Team : Type := { permission : string }.

(** [collab.permissions && collab.permissions.admin === true] reads the
    optional [permissions.admin] flag. *)
Record Collaborator : Type := { permissions_admin : option bool }.

(** The three probes of a repository; each may reject. *)
Record Api : Type := {
  isBranchProtected : string -> string -> string -> outcome bool;
  getRepoTeams : string -> string -> outcome (list Team);
  getRepoDirectCollaborators : string -> string -> outcome (list Collaborator);
}.

(** [promise.catch(() => fallback)] *)
Definition catch {A} (o : outcome A) (fallback : A) : A :=
  match o with
  | Ok a => a
  | Throw _ => fallback
  end.

Record DisplayLimits : Type := {
  maxUnprotectedRepos : Z;
  maxNoAdminRepos : Z;
}.

Definition visibility (repo : Repo) : string :=
  if private repo then "private" else "public".

Record UnprotectedRow : Type := {
  unprotected_name : string;
  unprotected_url : string;
  defaultBranch : string;
  unprotected_visibility : string;
  unprotected_settingsUrl : string;
}.

Record NoAdminRow : Type := {
  noAdmin_name : string;
  noAdmin_url : string;
  collaboratorCount : Z;
  noAdmin_visibility : string;
  noAdmin_settingsUrl : string;
}.

Record Report : Type := {
  unprotectedRepos : list UnprotectedRow;
  noAdminRepos : list NoAdminRow;
  totalUnprotected : Z;
  totalNoAdmin : Z;
}.

Definition activeRepos (repos : list Repo) : list Repo :=
  filter (fun repo => notArchivedNotFork repo) repos.

(** Lines 70-107: one iteration of the loop over the active
    repositories. *)
Definition checkRepo (api : Api) (orgName : string)
    (acc : list UnprotectedRow * list NoAdminRow) (repo : Repo)
    : list UnprotectedRow * list NoAdminRow :=
  let isProtected :=
    catch (isBranchProtected api orgName (name repo) (default_branch repo))
      false in
  let teams := catch (getRepoTeams api orgName (name repo)) [] in
  let directCollaborators :=
    catch (getRepoDirectCollaborators api orgName (name repo)) [] in
  let unprotected :=
    if negb isProtected then
      acc.1 ++ [ {| unprotected_name := name repo;
                    unprotected_url := html_url repo;
                    defaultBranch := default_branch repo;
                    unprotected_visibility := visibility repo;
                    unprotected_settingsUrl :=
                      html_url repo +:+ "/settings/branches" |} ]
    else acc.1 in
  let adminTeams :=
    filter (fun team => permission team = "admin") teams in
  let adminCollaborators :=
    filter (fun collab => permissions_admin collab = Some true)
      directCollaborators in
  let totalExplicitAdmins :=
    Z.of_nat (length adminTeams) + Z.of_nat (length adminCollaborators) in
  let noAdmin :=
    if totalExplicitAdmins =? 0 then
      acc.2 ++ [ {| noAdmin_name := name repo;
                    noAdmin_url := html_url repo;
                    collaboratorCount :=
                      Z.of_nat (length directCollaborators);
                    noAdmin_visibility := visibility repo;
                    noAdmin_settingsUrl :=
                      html_url repo +:+ "/settings/access" |} ]
    else acc.2 in
  (unprotected, noAdmin).

(** Lines 114-133: totals, truncation and the payload. *)
Definition finish (limits : DisplayLimits)
    (unprotected : list UnprotectedRow) (noAdmin : list NoAdminRow)
    : Report :=
  let totalUnprotected := Z.of_nat (length unprotected) in
  let unprotectedRepos :=
    JSArray.slice0 unprotected (maxUnprotectedRepos limits) in
  let totalNoAdmin := Z.of_nat (length noAdmin) in
  let noAdminRepos := JSArray.slice0 noAdmin (maxNoAdminRepos limits) in
  {| unprotectedRepos := unprotectedRepos;
     noAdminRepos := noAdminRepos;
     totalUnprotected := totalUnprotected;
     totalNoAdmin := totalNoAdmin |}.

(** Lines 56-133 of [fetchData], once the repository list has been
    fetched. *)
Definition build (api : Api) (limits : DisplayLimits) (orgName : string)
    (repos : list Repo) : Report :=
  let collected := foldl (checkRepo api orgName) ([], []) (activeRepos repos) in
  finish limits collected.1 collected.2.

End SecurityGovernanceRepo.

(* ------------------------------------------------------------------- *)
(** *** The Security component (Dependabot alerts per repository) *)
(* ------------------------------------------------------------------- *)

Module Security.
Import JS.

Record Api : Type := {
  isDependabotEnabled : string -> string -> outcome bool;
  getDependabotAlerts : string -> string -> outcome (list Alert);
}.

Record SeverityCounts : Type := {
  count_critical : Z;
  count_high : Z;
  count_medium : Z;
  count_low : Z;
}.

Record AlertRow : Type := {
  row_name : string;
  row_url : string;
  alertsUrl : string;
  row_visibility : string;
  totalAlerts : Z;
  critical : Z;
  high : Z;
  medium : Z;
  low : Z;
}.

Record DisabledRow : Type := {
  disabled_name : string;
  disabled_url : string;
  disabled_settingsUrl : string;
  disabled_visibility : string;
}.

Record Report : Type := {
  reposWithAlerts : list AlertRow;
  dependabotDisabledRepos : list DisabledRow;
}.

Definition activeRepos (repos : list Repo) : list Repo :=
  filter (fun repo => notArchivedNotFork repo) repos.

(** [alert.security_advisory?.severity ||
     alert.security_vulnerability?.severity || 'low'] *)
Definition severity (alert : Alert) : string :=
  default "low"
    (or_else (or_else (advisory_severity alert) (vulnerability_severity alert))
       (Some "low")).

(** The body of [dependabotAlerts.forEach]: a severity that is not one
    of the four counters is not counted. *)
Definition countAlert (c : SeverityCounts) (alert : Alert) : SeverityCounts :=
  let s := severity alert in
  if String.eqb s "critical" then
    {| count_critical := count_critical c + 1; count_high := count_high c;
       count_medium := count_medium c; count_low := count_low c |}
  else if String.eqb s "high" then
    {| count_critical := count_critical c; count_high := count_high c + 1;
       count_medium := count_medium c; count_low := count_low c |}
  else if String.eqb s "medium" then
    {| count_critical := count_critical c; count_high := count_high c;
       count_medium := count_medium c + 1; count_low := count_low c |}
  else if String.eqb s "low" then
    {| count_critical := count_critical c; count_high := count_high c;
       count_medium := count_medium c; count_low := count_low c + 1 |}
  else c.

Definition severityCounts (alerts : list Alert) : SeverityCounts :=
  foldl countAlert
    {| count_critical := 0; count_high := 0;
       count_medium := 0; count_low := 0 |}
    alerts.

Definition visibility (repo : Repo) : string :=
  if private repo then "private" else "public".

(** The row pushed for a repository with at least one open alert. *)
Definition alertRow (repo : Repo) (dependabotAlerts : list Alert) : AlertRow :=
  let counts := severityCounts dependabotAlerts in
  {| row_name := name repo;
     row_url := html_url repo;
     alertsUrl := html_url repo +:+ "/security/dependabot";
     row_visibility := visibility repo;
     totalAlerts := Z.of_nat (length dependabotAlerts);
     critical := count_critical counts;
     high := count_high counts;
     medium := count_medium counts;
     low := count_low counts |}.

Definition catch {A} (o : outcome A) (fallback : A) : A :=
  match o with
  | Ok a => a
  | Throw _ => fallback
  end.

(** One iteration of the loop over the active repositories. *)
Definition checkRepo (api : Api) (orgName : string)
    (acc : list AlertRow * list DisabledRow) (repo : Repo)
    : list AlertRow * list DisabledRow :=
  let enabled := catch (isDependabotEnabled api orgName (name repo)) true in
  if negb enabled then
    (acc.1,
     acc.2 ++ [ {| disabled_name := name repo;
                   disabled_url := html_url repo;
                   disabled_settingsUrl :=
                     html_url repo +:+ "/security_analysis";
                   disabled_visibility := visibility repo |} ])
  else
    let dependabotAlerts :=
      catch (getDependabotAlerts api orgName (name repo)) [] in
    if 0 <? Z.of_nat (length dependabotAlerts)
    then (acc.1 ++ [alertRow repo dependabotAlerts], acc.2)
    else acc.

(** The comparator handed to [withAlerts.sort]. *)
Definition compareAlerts (a b : AlertRow) : Z :=
  if negb (critical b =? critical a) then critical b - critical a
  else if negb (high b =? high a) then high b - high a
  else if negb (medium b =? medium a) then medium b - medium a
  else totalAlerts b - totalAlerts a.

(** [fetchData], once the repository list has been fetched. *)
Definition build (api : Api) (orgName : string) (repos : list Repo) : Report :=
  let collected := foldl (checkRepo api orgName) ([], []) (activeRepos repos) in
  {| reposWithAlerts := JSArray.sort compareAlerts collected.1;
     dependabotDisabledRepos := collected.2 |}.

End Security.

(* ------------------------------------------------------------------- *)
(** *** The GovernanceRepo component *)
(* ------------------------------------------------------------------- *)

Module GovernanceRepo.
Import Security.

(** [repos.filter(repo => repo.fork === true && !repo.archived)] *)
Definition forks (repos : list Repo) : list Repo :=
  filter (fun repo => fork repo && negb (archived repo)) repos.

Definition activeRepos (repos : list Repo) : list Repo :=
  filter (fun repo => notArchivedNotFork repo) repos.

(** The comparator handed to [withAlerts.sort] ("critical first, then
    high, etc."). *)
Definition compareAlerts (a b : AlertRow) : Z :=
  if negb (critical b =? critical a) then critical b - critical a
  else if negb (high b =? high a) then high b - high a
  else if negb (medium b =? medium a) then medium b - medium a
  else totalAlerts b - totalAlerts a.

Definition sortAlerts (withAlerts : list AlertRow) : list AlertRow :=
  JSArray.sort compareAlerts withAlerts.

End GovernanceRepo.

End Builders.

(* ===================================================================== *)
(** ** src/utils/cache.ts: invalidation of an organisation *)
(* ===================================================================== *)

Module CacheOrg.
Import JS Cache.

(** [`${CACHE_PREFIX}-${orgName}-`] *)
Definition orgPrefix (orgName : string) : string :=
  CACHE_PREFIX +:+ "-" +:+ orgName +:+ "-".

(** The loop of [clearOrgCaches]: the keys that start with the prefix of
    the organisation. *)
Fixpoint org_scan (orgName : string) (keys : list string) : list string :=
  match keys with
  | [] => []
  | key :: rest =>
      if negb (String.eqb key "") && startsWith key (orgPrefix orgName)
      then key :: org_scan orgName rest
      else org_scan orgName rest
  end.

Definition clearOrgCaches (orgName : string) : M unit :=
  try_catch
    (do keys <- storage_keys;
     removeAll (org_scan orgName keys))
    (fun _ => ret tt).

End CacheOrg.

(* ===================================================================== *)
(** ** src/services/githubApi.ts: requests with parameters and pagination *)
(* ===================================================================== *)

Module GitHubClient.
Import JS GitHubApi.

(** The query parameters of a request, in the order of the keys of the
    [params] object.  The client passes plain words and decimal numbers,
    which the URL encoding leaves as they are. *)
Definition Params : Type := list (string * string).

(** [url.searchParams], serialised. *)
Fixpoint queryString (params : Params) : string :=
  match params with
  | [] => ""
  | (k, v) :: rest =>
      match rest with
      | [] => k +:+ "=" +:+ v
      | _ :: _ => k +:+ "=" +:+ v +:+ "&" +:+ queryString rest
      end
  end.

(** [url.toString()] for [`${GITHUB_API_BASE}${endpoint}`] with the
    parameters appended. *)
Definition urlOf (endpoint : string) (params : Params) : string :=
  match params with
  | [] => GITHUB_API_BASE +:+ endpoint
  | _ :: _ => GITHUB_API_BASE +:+ endpoint +:+ "?" +:+ queryString params
  end.

(** [get(endpoint, params)] *)
Definition getWith (net : Network) (endpoint : string) (params : Params)
    : outcome jsval :=
  match net (urlOf endpoint params) with
  | Rejected => Throw TypeError
  | Resolved response =>
      if negb (ok response) then Throw (HttpError (status response))
      else match json response with
           | Some v => Ok v
           | None => Throw SyntaxError
           end
  end.

(** [all.concat(v)]: the elements of an array are appended, any other
    value is appended as one element. *)
Definition concat (all : list jsval) (v : jsval) : list jsval :=
  match v with
  | JArr items => all ++ items
  | _ => all ++ [v]
  end.

(** [v.length === n]: reading [length] from [null] throws; arrays and
    strings have a length, an object may have a [length] field, other
    values have none. *)
Definition lengthIs (v : jsval) (n : Z) : outcome bool :=
  match v with
  | JUndefined | JNull => Throw TypeError
  | JArr items => Ok (Z.of_nat (length items) =? n)
  | JStr s => Ok (Z.of_nat (String.length s) =? n)
  | JObj fields =>
      Ok (match assoc "length" fields with
          | Some (JNum m) => m =? n
          | _ => false
          end)
  | _ => Ok false
  end.

(** [{...extra, per_page: 100, page}] *)
Definition pageParams (extra : Params) (page : Z) : Params :=
  extra ++ [("per_page", "100"); ("page", pretty page)].

(** The loop [while (hasMore)] of the collection getters that let a
    failing request propagate ([getOrgRepositories], [getOrgMembers]):
    [None] when [fuel] iterations do not finish it. *)
Fixpoint pagesStrict (fuel : nat) (fetchPage : Z -> outcome jsval)
    (page : Z) (all : list jsval) : option (outcome (list jsval)) :=
  match fuel with
  | O => None
  | S fuel' =>
      match fetchPage page with
      | Throw e => Some (Throw e)
      | Ok items =>
          let all' := concat all items in
          match lengthIs items 100 with
          | Throw e => Some (Throw e)
          | Ok true => pagesStrict fuel' fetchPage (page + 1) all'
          | Ok false => Some (Ok all')
          end
      end
  end.

(** The same loop with its body in [try]/[catch]: a failure ends the loop
    and what has been collected is returned. *)
Fixpoint pagesLenient (fuel : nat) (fetchPage : Z -> outcome jsval)
    (page : Z) (all : list jsval) : option (list jsval) :=
  match fuel with
  | O => None
  | S fuel' =>
      match fetchPage page with
      | Throw _ => Some all
      | Ok items =>
          let all' := concat all items in
          match lengthIs items 100 with
          | Throw _ => Some all'
          | Ok true => pagesLenient fuel' fetchPage (page + 1) all'
          | Ok false => Some all'
          end
      end
  end.

Definition getOrgRepositories (fuel : nat) (net : Network) (org : string)
    : option (outcome (list jsval)) :=
  pagesStrict fuel
    (fun page => getWith net ("/orgs/" +:+ org +:+ "/repos") (pageParams [] page))
    1 [].

Definition getRepoBranches (fuel : nat) (net : Network) (owner repo : string)
    : option (list jsval) :=
  pagesLenient fuel
    (fun page =>
       getWith net ("/repos/" +:+ owner +:+ "/" +:+ repo +:+ "/branches")
         (pageParams [] page))
    1 [].

End GitHubClient.


(* ------------------------------------------------------------------- *)
(** *** src/utils/config.ts: the stored user settings *)
(* ------------------------------------------------------------------- *)

Module Config.
Import JS Cache.

Definition STORAGE_KEY : string := "github-org-analyser-settings".

(** [getUserSettings]: the parsed settings, or an empty object when
    nothing is stored or the stored text does not parse. *)
Definition getUserSettings `{Platform} : M jsval :=
  try_catch
    (do stored <- getItem STORAGE_KEY;
     if truthy_item stored then parse (default "" stored) else ret (JObj []))
    (fun _ => ret (JObj [])).

(** [saveUserSettings].  [JSON.stringify(undefined)] is [undefined],
    which [setItem] stores as the string ["undefined"]. *)
Definition saveUserSettings `{Platform} (settings : jsval) : M unit :=
  try_catch
    (match settings with
     | JUndefined => setItem STORAGE_KEY "undefined"
     | _ =>
         do text <- stringify settings;
         setItem STORAGE_KEY text
     end)
    (fun _ => ret tt).

(** [resetToDefaults] *)
Definition resetToDefaults : M unit := removeItem STORAGE_KEY.

End Config.
(* ===================================================================== *)
(** ** Vocabulary for cache keys *)
(* ===================================================================== *)

Module CacheKeySpec.
Import JS Cache.

(** The characters of a string. *)
Abbreviation chars := String.list_ascii_of_string.

Definition hyphen : Ascii.ascii := "-"%char.

(** [s] contains no ["-"]. *)
Definition hyphen_free (s : string) : Prop := hyphen ∉ chars s.

#[global] Instance hyphen_free_dec s : Decision (hyphen_free s).
Proof. unfold hyphen_free. apply _. Defined.

(** The report-type identifiers passed to the cache by the components. *)
Definition reportTypes : list string :=
  [ "archive"; "cleanup"; "costs"; "forked-repos"; "governance-repo";
    "home"; "security"; "security-org"; "security-repo" ].

(** No report type, preceded by the separator, ends another one. *)
Definition separated (types : list string) : Prop :=
  Forall (fun t1 =>
    Forall (fun t2 => ¬ suffix (hyphen :: chars t2) (chars t1)) types) types.

End CacheKeySpec.

(* ===================================================================== *)
(** ** Vocabulary for the sweep *)
(* ===================================================================== *)

Module CacheSpec.
Import JS Cache.

(** Whether the scan of [clearExpiredCaches] marks [key]: it lies under
    the prefix, and its entry fails to parse, parses to [null], or is
    expired. *)
Definition sweep_marks `{Platform} (now : Z) (st : Storage) (key : string) : bool :=
  negb (String.eqb key "") && startsWith key CACHE_PREFIX &&
  match JSON_parse (default "null" (st !! key)) with
  | None => true
  | Some v =>
      match get_prop v "expiresAt" with
      | Throw _ => true
      | Ok expiresAt => num_gt now expiresAt
      end
  end.

End CacheSpec.

(* ===================================================================== *)
(** ** A host with a finite table of JSON documents *)
(* ===================================================================== *)

Module TableHost.
Import JS Cache.

(** Structural equality of values. *)
Fixpoint jsval_eqb (a b : jsval) : bool :=
  match a, b with
  | JUndefined, JUndefined => true
  | JNull, JNull => true
  | JBool x, JBool y => Bool.eqb x y
  | JNum x, JNum y => x =? y
  | JStr x, JStr y => String.eqb x y
  | JDate x, JDate y => x =? y
  | JArr xs, JArr ys =>
      (fix items (xs ys : list jsval) : bool :=
         match xs, ys with
         | [], [] => true
         | x :: xs', y :: ys' => jsval_eqb x y && items xs' ys'
         | _, _ => false
         end) xs ys
  | JObj xs, JObj ys =>
      (fix fields (xs ys : list (string * jsval)) : bool :=
         match xs, ys with
         | [], [] => true
         | (k, x) :: xs', (k', y) :: ys' =>
             String.eqb k k' && jsval_eqb x y && fields xs' ys'
         | _, _ => false
         end) xs ys
  | _, _ => false
  end.

(** A host whose [JSON.stringify] knows the values of [printed] and
    whose [JSON.parse] knows the texts of [parsed], and nothing else; its
    store holds at most [capacity] entries; strings and objects coerce to
    NaN. *)
Definition codec_host (printed : list (jsval * string))
    (parsed : list (string * jsval)) (capacity : nat) : Platform :=
  {| JSON_parse text :=
       snd <$> List.find (fun doc => String.eqb doc.1 text) parsed;
     JSON_stringify v :=
       snd <$> List.find (fun doc => jsval_eqb doc.1 v) printed;
     storage_fits st key value :=
       bool_decide (size (<[key := value]> st) ≤ capacity)%nat;
     StringToNumber _ := None;
     ObjectToNumber _ := None |}.

(** A host whose codec prints and parses the documents of [docs] (text
    and value). *)
Definition host (docs : list (string * jsval)) (capacity : nat) : Platform :=
  codec_host ((fun doc => (doc.2, doc.1)) <$> docs) docs capacity.

(** The double quote. *)
Definition dq : string := String (ascii_of_nat 34) "".

(** ["name":] *)
Definition field (name : string) : string := dq +:+ name +:+ dq +:+ ":".

(** The text of the entry [{data: "report", timestamp: 1000,
    expiresAt: 86401000}], written at time 1000 with a TTL of 24 hours. *)
Definition report_text : string :=
  "{" +:+ field "data" +:+ dq +:+ "report" +:+ dq +:+ ","
      +:+ field "timestamp" +:+ "1000,"
      +:+ field "expiresAt" +:+ "86401000}".

Definition report_entry : jsval := cacheObject (JStr "report") 1000 24.

(** Text that is not JSON. *)
Definition broken_text : string := "{" +:+ field "data".

(** The text of the same report written at time 90000000. *)
Definition fresh_text : string :=
  "{" +:+ field "data" +:+ dq +:+ "report" +:+ dq +:+ ","
      +:+ field "timestamp" +:+ "90000000,"
      +:+ field "expiresAt" +:+ "176400000}".

Definition fresh_entry : jsval := cacheObject (JStr "report") 90000000 24.

Definition docs : list (string * jsval) :=
  [(report_text, report_entry); (fresh_text, fresh_entry)].

(** An entry whose payload is the [Date] of time 0, written at time 1000
    with a TTL of 24 hours: [JSON.stringify] prints the date as an ISO
    string, and [JSON.parse] reads that string back as a string. *)
Definition dated_entry : jsval := cacheObject (JDate 0) 1000 24.

Definition iso_epoch : string := "1970-01-01T00:00:00.000Z".

Definition dated_text : string :=
  "{" +:+ field "data" +:+ dq +:+ iso_epoch +:+ dq +:+ ","
      +:+ field "timestamp" +:+ "1000,"
      +:+ field "expiresAt" +:+ "86401000}".

Definition dated_host : Platform :=
  codec_host [(dated_entry, dated_text)]
    [(dated_text, cacheObject (JStr iso_epoch) 1000 24)] 16.


End TableHost.

(* ===================================================================== *)
(** ** Concrete stores *)
(* ===================================================================== *)

Module CacheFixture.
Import JS Cache TableHost.

#[export] Instance roomy : Platform := host docs 16.

Definition key : string := getCacheKey "lima-zulu" "cleanup".

(** A host whose store is full. *)
Definition full : Platform := host docs 0.

Definition expired_key : string := getCacheKey "lima-zulu" "security".
Definition broken_key : string := getCacheKey "lima-zulu" "costs".
Definition fresh_key : string := getCacheKey "lima-zulu" "home".

(** A store with an expired entry, a broken entry and a live entry under
    the prefix, and a broken entry outside it. *)
Definition mixed : Storage :=
  <[expired_key := report_text]>
    (<[broken_key := broken_text]>
       (<[fresh_key := fresh_text]> {[ "theme" := broken_text ]})).

End CacheFixture.

(* ===================================================================== *)
(** ** Concrete networks *)
(* ===================================================================== *)

Module ApiFixture.
Import JS GitHubApi.

(** A network that answers every request with the given status and an
    empty JSON object. *)
Definition answering (code : Z) : Network :=
  fun _ => Resolved {| status := code; json := Some (JObj []) |}.

(** A network on which every request fails. *)
Definition unreachable : Network := fun _ => Rejected.

End ApiFixture.

(* ===================================================================== *)
(** ** Vocabulary for sorting *)
(* ===================================================================== *)

Module ArraySpec.
Import JSArray.

(** [a] may stand before [b]. *)
Definition before {A : Type} (compareFn : A -> A -> Z) (a b : A) : Prop :=
  compareFn a b <= 0.

End ArraySpec.

(* ===================================================================== *)
(** ** Vocabulary for the alert list *)
(* ===================================================================== *)

Module SecuritySpec.
Import JSArray Builders Builders.Security.

(** The order the comparator realises: more critical alerts first, then
    more high ones, then more medium ones, then more alerts in total. *)
Definition alerts_before (a b : AlertRow) : Prop :=
  critical b < critical a \/
  (critical a = critical b /\
   (high b < high a \/
    (high a = high b /\
     (medium b < medium a \/
      (medium a = medium b /\ totalAlerts b <= totalAlerts a))))).

(** The order with a tier for [low] in front of the total. *)
Definition alerts_before_with_low (a b : AlertRow) : Prop :=
  critical b < critical a \/
  (critical a = critical b /\
   (high b < high a \/
    (high a = high b /\
     (medium b < medium a \/
      (medium a = medium b /\
       (low b < low a \/
        (low a = low b /\ totalAlerts b <= totalAlerts a))))))).

(** A row all of whose alerts fall in one of the four tiers. *)
Definition tiers_cover_total (r : AlertRow) : Prop :=
  totalAlerts r = critical r + high r + medium r + low r.

(** Alerts with the given severity in their advisory. *)
Definition alerts_of (n : nat) (severity : string) : list Alert :=
  replicate n {| advisory_severity := Some severity;
                 vulnerability_severity := None |}.

Definition repo_named (n : string) : Repo :=
  {| name := n; html_url := "https://github.com/lima-zulu/" +:+ n;
     archived := false; fork := false; private := false;
     default_branch := "main"; pushed_at := 0 |}.

(** The rows of the example: {critical:2, high:0}, {critical:1, high:5}
    and {critical:2, high:1}. *)
Definition row_2_0 : AlertRow := alertRow (repo_named "a") (alerts_of 2 "critical").
Definition row_1_5 : AlertRow :=
  alertRow (repo_named "b") (alerts_of 1 "critical" ++ alerts_of 5 "high").
Definition row_2_1 : AlertRow :=
  alertRow (repo_named "c") (alerts_of 2 "critical" ++ alerts_of 1 "high").

(** Two rows that differ in the [low] tier only: two low alerts, against
    one low alert and four alerts whose severity is none of the tiers. *)
Definition row_low_2 : AlertRow := alertRow (repo_named "d") (alerts_of 2 "low").
Definition row_low_1_of_5 : AlertRow :=
  alertRow (repo_named "e") (alerts_of 1 "low" ++ alerts_of 4 "moderate").

End SecuritySpec.

(* ===================================================================== *)
(** ** Vocabulary for the active set *)
(* ===================================================================== *)

Module ActiveSetSpec.
Import Builders.




End ActiveSetSpec.

(* ===================================================================== *)
(** ** Vocabulary for the cleanup builder *)
(* ===================================================================== *)

Module CleanupSpec.
Import JSArray Builders Builders.CleanupNeeded.

(** The value and the requests of [m] started on an empty log. *)
Definition value_of {A} (m : Fetch A) : A := (m []).1.
Definition requests_of {A} (m : Fetch A) : list Call := (m []).2.

(** [m] computes the same value on every log and appends the same
    requests to it. *)
Definition appends {A} (m : Fetch A) : Prop :=
  forall log, m log = (value_of m, log ++ requests_of m).

(** The per-branch detail requests for the non-default branches. *)
Definition detailsCalls (orgName : string) (repo : Repo)
    (branches : list Branch) : list Call :=
  (fun branch => CallBranchDetails orgName (name repo) (branch_name branch))
    <$> nonDefaultBranches repo branches.

(** [c] is a per-branch detail request for the repository [repoName]. *)
Definition isDetailsCallFor (orgName repoName : string) (c : Call) : bool :=
  match c with
  | CallBranchDetails o r _ => String.eqb o orgName && String.eqb r repoName
  | _ => false
  end.

(** The rows and requests that the stale-branch step contributes for a
    repository, given the branches the client returns for it. *)
Definition staleRowsOf api cfg orgName (repo : Repo) : list StaleRow :=
  value_of (staleBranchStep api cfg orgName repo
              (getRepoBranches api orgName (name repo))).
Definition detailRequestsOf api cfg orgName (repo : Repo) : list Call :=
  requests_of (staleBranchStep api cfg orgName repo
                 (getRepoBranches api orgName (name repo))).

(** The requests of one iteration. *)
Definition requestsOf api cfg orgName (repo : Repo) : list Call :=
  [ CallLastPullRequest orgName (name repo);
    CallRepoBranches orgName (name repo);
    CallOpenPullRequests orgName (name repo) ]
  ++ detailRequestsOf api cfg orgName repo.

(** [row] belongs to the repository [n]. *)
Definition isRowOf (n : string) (row : StaleRow) : bool :=
  String.eqb (repoName row) n.

(** The three list requests that open an iteration. *)
Definition listRequests (orgName : string) (repo : Repo) : list Call :=
  [ CallLastPullRequest orgName (name repo);
    CallRepoBranches orgName (name repo);
    CallOpenPullRequests orgName (name repo) ].

End CleanupSpec.

(* ===================================================================== *)
(** ** Vocabulary for the report lists *)
(* ===================================================================== *)

Module ReportSpec.
Import JSArray Builders.
Import CleanupNeeded.

(** The order of the stale-branch list: warning rows first, by branch
    count descending; then detailed rows, by stale-branch count
    descending. *)
Definition stale_before (a b : StaleRow) : Prop :=
  match a, b with
  | WarningRow _ _ n, WarningRow _ _ m => m <= n
  | WarningRow _ _ _, DetailRow _ _ _ _ _ => True
  | DetailRow _ _ _ _ _, WarningRow _ _ _ => False
  | DetailRow _ _ n _ _, DetailRow _ _ m _ _ => m <= n
  end.



End ReportSpec.

(* ===================================================================== *)
(** ** A small organisation *)
(* ===================================================================== *)

Module BuilderFixture.
Import JSArray Builders.
Import CleanupNeeded.

Definition org : string := "lima-zulu".

Definition repo (n : string) (is_archived is_fork : bool) : Repo :=
  {| name := n; html_url := "https://github.com/lima-zulu/" +:+ n;
     archived := is_archived; fork := is_fork; private := false;
     default_branch := "main"; pushed_at := 5000 |}.

Definition busy : Repo := repo "busy" false false.
Definition calm : Repo := repo "calm" false false.
Definition quiet : Repo := repo "quiet" false false.

(** Three active repositories, an archived one and a fork. *)
Definition repos : list Repo :=
  [ calm; repo "attic" true false; busy; repo "mirror" false true; quiet ].

Definition branch (n : string) : Branch := {| branch_name := n |}.

(** [busy] has three branches besides [main], [quiet] two, [calm] one;
    the last commit of every branch dates from time 0. *)
Definition api : ApiService :=
  {| getLastPullRequest _ _ := None;
     getRepoBranches _ repoName :=
       if String.eqb repoName "busy"
       then [branch "main"; branch "b1"; branch "b2"; branch "b3"]
       else if String.eqb repoName "quiet"
       then [branch "main"; branch "old1"; branch "old2"]
       else [branch "main"; branch "dev"];
     getOpenPullRequests _ _ := [];
     getBranchDetails _ _ _ :=
       Some {| commit := Some {| author_login := Some "octocat";
                                 author_name := "Octo Cat";
                                 author_date := 0 |} |} |}.

(** A warning threshold of two branches; branches are stale when their
    last commit is from before time 1000. *)
Definition cfg : Settings :=
  {| branchWarningThreshold := 2;
     inactiveCutoffDate := 0;
     staleBranchCutoffDate := 1000;
     prCutoffDate := 0;
     now := 2000 |}.

Definition busy_row : StaleRow :=
  WarningRow "busy" "https://github.com/lima-zulu/busy" 3.




End BuilderFixture.

(* ===================================================================== *)
(** ** Vocabulary for reads *)
(* ===================================================================== *)

Module ReadSpec.
Import JS Cache.

(** What [loadFromCache] makes of the text stored under its key at time
    [now]: the value it returns, and whether it removes the entry. *)
Definition read_value `{Platform} (now : Z) (entry : option string) : jsval :=
  match entry with
  | None => JNull
  | Some text =>
      if String.eqb text "" then JNull
      else match JSON_parse text with
           | None => JNull
           | Some v =>
               match get_prop v "expiresAt" with
               | Throw _ => JNull
               | Ok expiresAt =>
                   if num_gt now expiresAt then JNull
                   else match get_prop v "data" with
                        | Ok data => data
                        | Throw _ => JNull
                        end
               end
           end
  end.

Definition read_removes `{Platform} (now : Z) (entry : option string) : bool :=
  match entry with
  | None => false
  | Some text =>
      negb (String.eqb text "") &&
      match JSON_parse text with
      | None => false
      | Some v =>
          match get_prop v "expiresAt" with
          | Throw _ => false
          | Ok expiresAt => num_gt now expiresAt
          end
      end
  end.

End ReadSpec.

(* ===================================================================== *)
(** ** Vocabulary for pagination *)
(* ===================================================================== *)

Module PaginationSpec.
Import JS GitHubApi.
Import GitHubClient.

(** The request for page [i + 1] of the repositories of [org]. *)
Definition reposPage (net : Network) (org : string) (i : nat) : outcome jsval :=
  getWith net ("/orgs/" +:+ org +:+ "/repos") (pageParams [] (1 + Z.of_nat i)).

(** The request for page [i + 1] of the branches of a repository. *)
Definition branchesPage (net : Network) (owner repo : string) (i : nat)
    : outcome jsval :=
  getWith net ("/repos/" +:+ owner +:+ "/" +:+ repo +:+ "/branches")
    (pageParams [] (1 + Z.of_nat i)).

End PaginationSpec.

(* ===================================================================== *)
(** ** Vocabulary for the classification of repositories *)
(* ===================================================================== *)

Module ClassifySpec.
Import JS Builders.

(** The number of alerts of a given severity. *)
Definition alertsOf (s : string) (alerts : list Alert) : Z :=
  Z.of_nat (length (filter (fun alert => Security.severity alert = s) alerts)).


(** The teams and direct collaborators of [repo], a failing request
    counting as none. *)
Definition teamsOf (api : SecurityGovernanceRepo.Api) (orgName : string)
    (repo : Repo) : list SecurityGovernanceRepo.Team :=
  match SecurityGovernanceRepo.getRepoTeams api orgName (name repo) with
  | Ok teams => teams
  | Throw _ => []
  end.

Definition collaboratorsOf (api : SecurityGovernanceRepo.Api) (orgName : string)
    (repo : Repo) : list SecurityGovernanceRepo.Collaborator :=
  match SecurityGovernanceRepo.getRepoDirectCollaborators api orgName (name repo) with
  | Ok collaborators => collaborators
  | Throw _ => []
  end.

(** [repo] has a delegated admin: a team with the permission ["admin"] or
    a direct collaborator with [permissions.admin === true]. *)
Definition hasDelegatedAdmin (api : SecurityGovernanceRepo.Api)
    (orgName : string) (repo : Repo) : Prop :=
  Exists (fun team => SecurityGovernanceRepo.permission team = "admin")
    (teamsOf api orgName repo) \/
  Exists (fun collab =>
            SecurityGovernanceRepo.permissions_admin collab = Some true)
    (collaboratorsOf api orgName repo).

#[global] Instance hasDelegatedAdmin_dec api orgName repo :
  Decision (hasDelegatedAdmin api orgName repo).
Proof. unfold hasDelegatedAdmin. apply _. Defined.

(** Dependabot counts as enabled for [repo] unless the probe answers
    [false]. *)
Definition dependabotOn (api : Security.Api) (orgName : string) (repo : Repo)
    : bool :=
  match Security.isDependabotEnabled api orgName (name repo) with
  | Ok b => b
  | Throw _ => true
  end.

(** The open alerts of [repo], a failing request counting as none. *)
Definition openAlerts (api : Security.Api) (orgName : string) (repo : Repo)
    : list Alert :=
  match Security.getDependabotAlerts api orgName (name repo) with
  | Ok alerts => alerts
  | Throw _ => []
  end.

(** [repo] is listed with alerts: Dependabot counts as enabled and there
    is an open alert. *)
Definition hasOpenAlerts (api : Security.Api) (orgName : string) (repo : Repo)
    : Prop :=
  dependabotOn api orgName repo = true /\ openAlerts api orgName repo ≠ [].

#[global] Instance hasOpenAlerts_dec api orgName repo :
  Decision (hasOpenAlerts api orgName repo).
Proof. unfold hasOpenAlerts. apply _. Defined.

End ClassifySpec.


(** ** Vocabulary for the contents of the clean-up report *)

Module ContentsSpec.
Import JSArray Builders Builders.CleanupNeeded.
Import CleanupSpec.

(** The later of the last push and the last update of a pull request. *)
Definition latestActivity (repo : Repo) (lastPR : option PullRequest) : Z :=
  match lastPR with
  | Some pr => Z.max (pushed_at repo) (updated_at pr)
  | None => pushed_at repo
  end.

Definition latestActivityOf (api : ApiService) (orgName : string)
    (repo : Repo) : Z :=
  latestActivity repo (getLastPullRequest api orgName (name repo)).

(** The whole days for which [pr] has been open. *)
Definition age (cfg : Settings) (pr : PullRequest) : Z :=
  days (now cfg - created_at pr).

(** The open pull requests created before the cutoff. *)
Definition oldPullRequests (cfg : Settings) (openPRs : list PullRequest)
    : list PullRequest :=
  filter (fun pr => created_at pr < prCutoffDate cfg) openPRs.

Definition oldPullRequestsOf (api : ApiService) (cfg : Settings)
    (orgName : string) (repo : Repo) : list PullRequest :=
  oldPullRequests cfg (getOpenPullRequests api orgName (name repo)).

(** The record [oldestPR] before a pull request has been entered. *)
Definition noOldest : OldestPR :=
  {| daysOpen := 0; oldest_number := None; oldest_url := None |}.

(** The record [oldestPR] naming [pr]. *)
Definition oldestIs (cfg : Settings) (pr : PullRequest) : OldestPR :=
  {| daysOpen := age cfg pr;
     oldest_number := Some (number pr);
     oldest_url := Some (pr_html_url pr) |}.

(** The branch has a last commit, dated before the cutoff. *)
Definition isStale (cfg : Settings) (d : option BranchDetails) : bool :=
  match d with
  | Some {| commit := Some c |} => author_date c <? staleBranchCutoffDate cfg
  | _ => false
  end.

Definition staleDetails (cfg : Settings) (details : list (option BranchDetails))
    : list (option BranchDetails) :=
  filter (fun d => isStale cfg d = true) details.

(** The author recorded for a branch: the login, or else the name of the
    commit author, when that is not empty. *)
Definition authorOf (d : option BranchDetails) : option string :=
  match d with
  | Some {| commit := Some c |} =>
      let identifier := or_else (author_login c) (Some (author_name c)) in
      if truthy identifier then identifier else None
  | _ => None
  end.

(** The answers of the client for the branches of [repo] other than the
    default branch. *)
Definition branchDetailsOf (api : ApiService) (orgName : string)
    (repo : Repo) (branches : list Branch) : list (option BranchDetails) :=
  (fun branch => getBranchDetails api orgName (name repo) (branch_name branch))
    <$> nonDefaultBranches repo branches.

(** The rows that one iteration adds to the other two lists. *)
Definition inactiveRowsOf (api : ApiService) (cfg : Settings)
    (orgName : string) (repo : Repo) : list InactiveRow :=
  inactiveStep cfg repo (getLastPullRequest api orgName (name repo)).
Definition oldPRRowsOf (api : ApiService) (cfg : Settings)
    (orgName : string) (repo : Repo) : list OldPRRow :=
  oldPRStep cfg repo (getOpenPullRequests api orgName (name repo)).

End ContentsSpec.

(** ** Vocabulary for the stored settings *)

Module ConfigSpec.
Import JS Cache Config.


End ConfigSpec.

(** ** Concrete servers and repositories *)

Module PaginationFixture.
Import JS GitHubApi GitHubClient.

(** A full page of a hundred items and a shorter one. *)
Definition fullPage : list jsval := replicate 100 (JObj []).
Definition shortPage : list jsval := [JObj []; JObj []].

Definition body (items : list jsval) : FetchResult :=
  Resolved {| status := 200; json := Some (JArr items) |}.

Definition repos_page_1 : string :=
  "https://api.github.com/orgs/acme/repos?per_page=100&page=1".
Definition repos_page_2 : string :=
  "https://api.github.com/orgs/acme/repos?per_page=100&page=2".
Definition branches_page_1 : string :=
  "https://api.github.com/repos/acme/site/branches?per_page=100&page=1".
Definition branches_page_2 : string :=
  "https://api.github.com/repos/acme/site/branches?per_page=100&page=2".

(** A server that fails after the first page of either collection. *)
Definition cut : Network := fun url =>
  if String.eqb url repos_page_1 || String.eqb url branches_page_1
  then body fullPage
  else Rejected.

(** A server with 102 repositories of [acme] and 102 branches of
    [acme/site]. *)
Definition paged : Network := fun url =>
  if String.eqb url repos_page_2 || String.eqb url branches_page_2
  then body shortPage
  else cut url.

End PaginationFixture.

Module ContentsFixture.
Import Builders Builders.CleanupNeeded.

(** One day, in milliseconds. *)
Definition day : Z := 1000 * 60 * 60 * 24.

(** The clock reads day 100; pull requests are old when created before
    day 70. *)
Definition settings : Settings :=
  {| branchWarningThreshold := 2;
     inactiveCutoffDate := 10 * day;
     staleBranchCutoffDate := 10 * day;
     prCutoffDate := 70 * day;
     now := 100 * day |}.



End ContentsFixture.

Module ConfigFixture.
Import JS Cache Config TableHost.

(** The settings [{oldPRDays: 30}] and their text. *)
Definition chosen : jsval := JObj [("oldPRDays", JNum 30)].
Definition chosen_text : string := "{" +:+ field "oldPRDays" +:+ "30}".

(** A host that also knows the settings. *)
Definition settings_host : Platform :=
  host ((chosen_text, chosen) :: docs) 16.


End ConfigFixture.
(* ===================================================================== *)
(** ** Cache keys *)
(* ===================================================================== *)

Module CacheKeys.
Import JS Cache.
Import CacheKeySpec.

Lemma chars_app (a b : string) : chars (a +:+ b) = chars a ++ chars b.
Proof. induction a as [|c a IH]; simpl; [done | by rewrite <- IH]. Qed.

Lemma chars_inj (a b : string) : chars a = chars b -> a = b.
Proof.
  intros Heq.
  rewrite <- (String.string_of_list_ascii_of_string a).
  rewrite <- (String.string_of_list_ascii_of_string b).
  by rewrite Heq.
Qed.

(** Splitting at the first separator. *)
Lemma split_first_sep {A} (c : A) (a b s t : list A) :
  c ∉ a -> c ∉ b -> a ++ c :: s = b ++ c :: t -> a = b /\ s = t.
Proof.
  revert b. induction a as [|x a IH]; intros [|y b] Ha Hb Heq; simpl in *.
  - by simplify_eq.
  - simplify_eq. exfalso. apply Hb. left.
  - simplify_eq. exfalso. apply Ha. left.
  - simplify_eq.
    destruct (IH b) as [-> ->]; try done.
    + intros Hin. apply Ha. by right.
    + intros Hin. apply Hb. by right.
Qed.

(** Splitting at the last separator. *)
Lemma split_last_sep {A} (c : A) (a b s t : list A) :
  c ∉ s -> c ∉ t -> a ++ c :: s = b ++ c :: t -> a = b /\ s = t.
Proof.
  intros Hs Ht Heq.
  assert (reverse s ++ c :: reverse a = reverse t ++ c :: reverse b) as Hrev.
  { apply (f_equal reverse) in Heq.
    rewrite !reverse_app, !reverse_cons, <- !(assoc_L (++)) in Heq.
    exact Heq. }
  apply split_first_sep in Hrev as [Hst Hab].
  - split; apply (inj reverse); done.
  - by rewrite elem_of_reverse.
  - by rewrite elem_of_reverse.
Qed.

(** Two splittings of one list at a separator: either they are the same
    splitting, or the tail of one, with its separator, ends the tail of
    the other. *)
Lemma split_sep_suffix {A} (c : A) (a b s t : list A) :
  a ++ c :: s = b ++ c :: t ->
  (a = b /\ s = t) \/ suffix (c :: s) t \/ suffix (c :: t) s.
Proof.
  intros Heq. apply app_eq_inv in Heq as [[k [-> Hk]]|[k [-> Hk]]].
  - destruct k as [|x k]; simpl in Hk.
    + left. rewrite (right_id_L [] (++)). by simplify_eq.
    + right; left. simplify_eq. by exists k.
  - destruct k as [|x k]; simpl in Hk.
    + left. rewrite (right_id_L [] (++)). by simplify_eq.
    + right; right. simplify_eq. by exists k.
Qed.

Lemma reportTypes_separated : separated reportTypes.
Proof. unfold separated. apply (bool_decide_unpack _). by vm_compute. Qed.

(** A key determines the text [org-type] behind the prefix. *)
Lemma getCacheKey_chars o1 t1 o2 t2 :
  getCacheKey o1 t1 = getCacheKey o2 t2 ->
  chars o1 ++ hyphen :: chars t1 = chars o2 ++ hyphen :: chars t2.
Proof.
  unfold getCacheKey. intros Heq.
  apply (inj (String.app CACHE_PREFIX)) in Heq.
  apply (inj (String.app "-")) in Heq.
  apply (f_equal chars) in Heq.
  by rewrite !chars_app in Heq.
Qed.

(** C1, as the code has it: [getCacheKey] is a function of its two
    arguments, and two pairs with the same key are the same pair whenever
    they agree in one component, or neither organisation name contains a
    hyphen, or neither report type does, or both report types are among
    the identifiers the components use. *)
Theorem getCacheKey_injective_when_separable :
  (forall o1 t1 o2 t2,
      o1 = o2 -> t1 = t2 -> getCacheKey o1 t1 = getCacheKey o2 t2) /\
  (forall o1 t1 o2 t2,
      getCacheKey o1 t1 = getCacheKey o2 t2 ->
      o1 = o2 \/ t1 = t2 \/
      (hyphen_free o1 /\ hyphen_free o2) \/
      (hyphen_free t1 /\ hyphen_free t2) \/
      (t1 ∈ reportTypes /\ t2 ∈ reportTypes) ->
      o1 = o2 /\ t1 = t2).
Proof.
  split; [by intros ???? -> -> |].
  intros o1 t1 o2 t2 Hkey Hcase.
  pose proof (getCacheKey_chars _ _ _ _ Hkey) as Hchars.
  assert (chars o1 = chars o2 /\ chars t1 = chars t2) as [Ho Ht];
    [| split; by apply chars_inj].
  destruct Hcase as [-> | [-> | [[H1 H2] | [[H1 H2] | [H1 H2]]]]].
  - split; [done |]. apply (inj (app (chars o2))) in Hchars. by simplify_eq.
  - split; [| done]. by apply (inj (fun l => l ++ hyphen :: chars t2)) in Hchars.
  - by apply (split_first_sep hyphen).
  - by apply (split_last_sep hyphen).
  - destruct (split_sep_suffix _ _ _ _ _ Hchars) as [? | [Hsuf | Hsuf]];
      [done | exfalso..].
    + pose proof reportTypes_separated as Hsep. unfold separated in Hsep.
      rewrite Forall_forall in Hsep. specialize (Hsep _ H2).
      rewrite Forall_forall in Hsep. by apply (Hsep _ H1).
    + pose proof reportTypes_separated as Hsep. unfold separated in Hsep.
      rewrite Forall_forall in Hsep. specialize (Hsep _ H1).
      rewrite Forall_forall in Hsep. by apply (Hsep _ H2).
Qed.

(** The theorem at the organisation of this repository and the report
    type of the repository-governance tab. *)
Lemma getCacheKey_injective_when_separable_witness :
  getCacheKey "lima-zulu" "governance-repo"
    = getCacheKey "lima-zulu" "governance-repo" /\
  "governance-repo" ∈ reportTypes /\
  ("lima-zulu" = "lima-zulu" /\ "governance-repo" = "governance-repo").
Proof.
  assert ("governance-repo" ∈ reportTypes) as Hin
    by (apply (bool_decide_unpack _); vm_compute; exact I).
  split; [reflexivity | split; [exact Hin |]].
  apply (proj2 getCacheKey_injective_when_separable
           "lima-zulu" "governance-repo" "lima-zulu" "governance-repo"
           eq_refl).
  do 4 right. split; exact Hin.
Defined.

(** C1 as stated fails: an organisation whose name ends in a hyphenated
    word shares a key with another organisation. *)
Lemma getCacheKey_collision :
  ("acme-security", "org") ≠ ("acme", "security-org") /\
  getCacheKey "acme-security" "org" = getCacheKey "acme" "security-org".
Proof. split; [discriminate | reflexivity]. Qed.


End CacheKeys.

(* ===================================================================== *)
(** ** The expiring cache *)
(* ===================================================================== *)

Module CacheFacts.
Import JS Cache.
Import CacheSpec.

Section WithPlatform.
Context `{Platform}.

(** *** Reading *)

Lemma loadFromCache_absent now org type (st : Storage) :
  st !! getCacheKey org type = None ->
  loadFromCache now org type st = (Ok JNull, st).
Proof.
  intros Hlook. unfold loadFromCache, try_catch, bind, getItem.
  by rewrite Hlook.
Qed.

Lemma loadFromCache_empty now org type (st : Storage) :
  st !! getCacheKey org type = Some "" ->
  loadFromCache now org type st = (Ok JNull, st).
Proof.
  intros Hlook. unfold loadFromCache, try_catch, bind, getItem.
  by rewrite Hlook.
Qed.

Lemma loadFromCache_malformed now org type (st : Storage) text :
  st !! getCacheKey org type = Some text ->
  JSON_parse text = None ->
  loadFromCache now org type st = (Ok JNull, st).
Proof.
  intros Hlook Hparse. unfold loadFromCache, try_catch, bind, getItem.
  rewrite Hlook. simpl. destruct (String.eqb text ""); simpl; [done |].
  unfold parse. by rewrite Hparse.
Qed.

(** A stored text that parses: the outcome is decided by the [expiresAt]
    property of the parsed value. *)
Lemma loadFromCache_parsed now org type (st : Storage) text v :
  st !! getCacheKey org type = Some text ->
  text ≠ "" ->
  JSON_parse text = Some v ->
  loadFromCache now org type st =
    match get_prop v "expiresAt" with
    | Throw _ => (Ok JNull, st)
    | Ok expiresAt =>
        if num_gt now expiresAt
        then (Ok JNull, delete (getCacheKey org type) st)
        else (Ok (default JUndefined
                    (match get_prop v "data" with
                     | Ok d => Some d
                     | Throw _ => None
                     end)), st)
    end.
Proof.
  intros Hlook Hne Hparse. unfold loadFromCache, try_catch, bind, getItem.
  rewrite Hlook. simpl.
  destruct (String.eqb_spec text "") as [-> | _]; [done |]. simpl.
  unfold parse. rewrite Hparse. unfold ret, prop. simpl.
  destruct v; simpl; try done;
    match goal with
    | |- context [num_gt ?n ?e] => destruct (num_gt n e); done
    end.
Qed.

Lemma num_gt_JNum now e : num_gt now (JNum e) = (e <? now).
Proof. reflexivity. Qed.

Lemma loadFromCache_expired now org type (st : Storage) text fields e :
  st !! getCacheKey org type = Some text ->
  text ≠ "" ->
  JSON_parse text = Some (JObj fields) ->
  assoc "expiresAt" fields = Some (JNum e) ->
  e < now ->
  loadFromCache now org type st
    = (Ok JNull, delete (getCacheKey org type) st).
Proof.
  intros Hlook Hne Hparse Hexp Hlt.
  rewrite (loadFromCache_parsed _ _ _ _ _ _ Hlook Hne Hparse). simpl.
  rewrite Hexp. simpl. rewrite num_gt_JNum.
  by rewrite (proj2 (Z.ltb_lt e now) Hlt).
Qed.

Lemma loadFromCache_live now org type (st : Storage) text fields e :
  st !! getCacheKey org type = Some text ->
  text ≠ "" ->
  JSON_parse text = Some (JObj fields) ->
  assoc "expiresAt" fields = Some (JNum e) ->
  now <= e ->
  loadFromCache now org type st
    = (Ok (default JUndefined (assoc "data" fields)), st).
Proof.
  intros Hlook Hne Hparse Hexp Hle.
  rewrite (loadFromCache_parsed _ _ _ _ _ _ Hlook Hne Hparse). simpl.
  rewrite Hexp. simpl. rewrite num_gt_JNum.
  by rewrite (proj2 (Z.ltb_ge e now) Hle).
Qed.

(** Reading never throws. *)
Lemma loadFromCache_returns now org type (st : Storage) :
  exists v st', loadFromCache now org type st = (Ok v, st').
Proof.
  unfold loadFromCache, try_catch.
  match goal with
  | |- context [match ?body st with _ => _ end] => destruct (body st) as [[v | e] st']
  end; eauto.
Qed.

(** *** Sweeping *)

Lemma sweep_scan_spec now keys (st : Storage) :
  sweep_scan now keys st
    = (Ok (filter (fun key => sweep_marks now st key) keys), st).
Proof.
  induction keys as [|key keys IH]; [done |].
  cbn [sweep_scan]. unfold bind at 1.
  assert ((if negb (String.eqb key "") && startsWith key CACHE_PREFIX
           then try_catch
                  (do cached <- getItem key;
                   do cacheObject <- parse (default "null" cached);
                   do expiresAt <- prop cacheObject "expiresAt";
                   ret (num_gt now expiresAt))
                  (fun _ => ret true)
           else ret false) st = (Ok (sweep_marks now st key), st)) as ->.
  { unfold sweep_marks.
    destruct (negb (String.eqb key "") && startsWith key CACHE_PREFIX);
      simpl; [| done].
    unfold try_catch, bind, getItem, parse, prop, ret, throw. simpl.
    destruct (JSON_parse (default "null" (st !! key))) as [v|]; [| done].
    simpl. by destruct (get_prop v "expiresAt"). }
  unfold bind. rewrite IH. unfold ret.
  rewrite filter_cons.
  by destruct (sweep_marks now st key).
Qed.

Lemma removeAll_spec keys (st : Storage) :
  exists st', removeAll keys st = (Ok tt, st') /\
    forall key, st' !! key = if decide (key ∈ keys) then None else st !! key.
Proof.
  revert st. induction keys as [|k keys IH]; intros st.
  - exists st. split; [done |]. intros key.
    rewrite decide_False; [done | apply not_elem_of_nil].
  - destruct (IH (delete k st)) as (st' & Hrun & Hlook).
    exists st'. split.
    + cbn [removeAll]. unfold bind, removeItem. exact Hrun.
    + intros key. rewrite Hlook.
      destruct (decide (key = k)) as [-> | Hne].
      * rewrite lookup_delete_eq. rewrite (decide_True (P := k ∈ k :: keys));
          [by destruct (decide (k ∈ keys)) | left].
      * rewrite lookup_delete_ne by done.
        destruct (decide (key ∈ keys)) as [Hin | Hnin].
        -- rewrite decide_True; [done | by right].
        -- rewrite decide_False; [done |].
           by intros [? | ?]%elem_of_cons.
Qed.

Lemma storage_keys_elem (st : Storage) key :
  key ∈ (map_to_list st).*1 <-> is_Some (st !! key).
Proof.
  rewrite list_elem_of_fmap. split.
  - intros ([k v] & -> & Hin). apply elem_of_map_to_list in Hin. eauto.
  - intros [v Hv]. exists (key, v). split; [done |].
    by apply elem_of_map_to_list.
Qed.

(** The sweep never throws, and removes exactly the marked keys. *)
Lemma clearExpiredCaches_spec now (st : Storage) :
  exists st', clearExpiredCaches now st = (Ok tt, st') /\
    forall key,
      st' !! key = if sweep_marks now st key then None else st !! key.
Proof.
  unfold clearExpiredCaches, try_catch, bind at 1, storage_keys.
  unfold bind. rewrite sweep_scan_spec.
  destruct (removeAll_spec
              (filter (fun key => sweep_marks now st key) (map_to_list st).*1)
              st) as (st' & Hrun & Hlook).
  rewrite Hrun. exists st'. split; [done |].
  intros key. rewrite Hlook.
  destruct (sweep_marks now st key) eqn:Hmark.
  - destruct (st !! key) eqn:Hst.
    + rewrite decide_True; [done |].
      apply list_elem_of_filter. split; [by rewrite Hmark |].
      apply storage_keys_elem. by rewrite Hst.
    + by destruct (decide _).
  - rewrite decide_False; [done |].
    intros [Hm _]%list_elem_of_filter. by rewrite Hmark in Hm.
Qed.

Lemma startsWith_prefix_nonempty key :
  startsWith key CACHE_PREFIX = true -> String.eqb key "" = false.
Proof. by destruct key. Qed.

(** *** Writing *)

Lemma saveToCache_stored now org type data ttlHours (st : Storage) text :
  JSON_stringify (cacheObject data now ttlHours) = Some text ->
  storage_fits st (getCacheKey org type) text = true ->
  saveToCache now org type data ttlHours st
    = (Ok tt, <[getCacheKey org type := text]> st).
Proof.
  intros Hstr Hfits.
  unfold saveToCache, try_catch, bind, stringify, setItem.
  rewrite Hstr. unfold ret. by rewrite Hfits.
Qed.

Lemma saveToCache_quota_exceeded now org type data ttlHours (st : Storage) text :
  JSON_stringify (cacheObject data now ttlHours) = Some text ->
  storage_fits st (getCacheKey org type) text = false ->
  saveToCache now org type data ttlHours st = clearExpiredCaches now st.
Proof.
  intros Hstr Hfits.
  unfold saveToCache, try_catch, bind, stringify, setItem.
  rewrite Hstr. unfold ret. by rewrite Hfits.
Qed.

Lemma saveToCache_returns now org type data ttlHours (st : Storage) :
  exists st', saveToCache now org type data ttlHours st = (Ok tt, st').
Proof.
  destruct (JSON_stringify (cacheObject data now ttlHours)) as [text|] eqn:Hstr.
  - destruct (storage_fits st (getCacheKey org type) text) eqn:Hfits.
    + rewrite (saveToCache_stored _ _ _ _ _ _ _ Hstr Hfits). eauto.
    + rewrite (saveToCache_quota_exceeded _ _ _ _ _ _ _ Hstr Hfits).
      destruct (clearExpiredCaches_spec now st) as (st' & -> & _). eauto.
  - exists st. unfold saveToCache, try_catch, bind, stringify.
    by rewrite Hstr.
Qed.

(** *** Reading, writing and sweeping: the main statements *)

(** C2, as the code has it: [loadFromCache] returns [null] when the
    entry is absent, when the stored text fails to parse, and when
    [now > expiresAt]; it removes the entry in the expired case only
    and leaves a malformed entry in place; otherwise it returns the
    stored payload. *)
Theorem loadFromCache_null_or_payload now org type (st : Storage) :
  (st !! getCacheKey org type = None ->
   loadFromCache now org type st = (Ok JNull, st)) /\
  (forall text,
      st !! getCacheKey org type = Some text ->
      JSON_parse text = None ->
      loadFromCache now org type st = (Ok JNull, st)) /\
  (forall text fields e,
      st !! getCacheKey org type = Some text ->
      text ≠ "" ->
      JSON_parse text = Some (JObj fields) ->
      assoc "expiresAt" fields = Some (JNum e) ->
      e < now ->
      loadFromCache now org type st
        = (Ok JNull, delete (getCacheKey org type) st)) /\
  (forall text fields e,
      st !! getCacheKey org type = Some text ->
      text ≠ "" ->
      JSON_parse text = Some (JObj fields) ->
      assoc "expiresAt" fields = Some (JNum e) ->
      now <= e ->
      loadFromCache now org type st
        = (Ok (default JUndefined (assoc "data" fields)), st)).
Proof.
  repeat split.
  - apply loadFromCache_absent.
  - intros text. apply loadFromCache_malformed.
  - intros text fields e. apply loadFromCache_expired.
  - intros text fields e. apply loadFromCache_live.
Qed.

(** C3, as the code has it: when the entry serialises, the store
    accepts the write and the serialised entry parses back to itself,
    [saveToCache] stores it under the key with
    [expiresAt = now + ttlHours * 3600 * 1000], and a [loadFromCache] at
    any time up to [expiresAt] returns the payload and leaves the store
    as it is. *)
Theorem saveToCache_loadFromCache_roundtrip
    now now' org type data ttlHours (st : Storage) text :
  JSON_stringify (cacheObject data now ttlHours) = Some text ->
  storage_fits st (getCacheKey org type) text = true ->
  JSON_parse text = Some (cacheObject data now ttlHours) ->
  text ≠ "" ->
  now' <= now + ttlHours * 3600 * 1000 ->
  exists st1,
    saveToCache now org type data ttlHours st = (Ok tt, st1) /\
    st1 !! getCacheKey org type = Some text /\
    get_prop (cacheObject data now ttlHours) "expiresAt"
      = Ok (JNum (now + ttlHours * 3600 * 1000)) /\
    loadFromCache now' org type st1 = (Ok data, st1).
Proof.
  intros Hstr Hfits Hparse Hne Hnow.
  exists (<[getCacheKey org type := text]> st).
  split; [by apply saveToCache_stored |].
  split; [apply lookup_insert_eq |].
  split; [simpl; do 3 f_equal; lia |].
  apply (loadFromCache_live now' org type _ text
           [("data", data); ("timestamp", JNum now);
            ("expiresAt", JNum (now + ttlHours * 60 * 60 * 1000))]
           (now + ttlHours * 60 * 60 * 1000));
    [apply lookup_insert_eq | done | exact Hparse | reflexivity | lia].
Qed.

(** C9: the sweep never throws; it deletes every entry under the prefix
    whose text fails to parse and every such entry with
    [now > expiresAt]; entries outside the prefix, and entries under it
    that parse and are not expired, stay. *)
Theorem clearExpiredCaches_removes_expired_and_malformed now (st : Storage) :
  exists st',
    clearExpiredCaches now st = (Ok tt, st') /\
    (forall key text,
        st !! key = Some text ->
        startsWith key CACHE_PREFIX = true ->
        JSON_parse text = None ->
        st' !! key = None) /\
    (forall key text fields e,
        st !! key = Some text ->
        startsWith key CACHE_PREFIX = true ->
        JSON_parse text = Some (JObj fields) ->
        assoc "expiresAt" fields = Some (JNum e) ->
        e < now ->
        st' !! key = None) /\
    (forall key,
        startsWith key CACHE_PREFIX = false -> st' !! key = st !! key) /\
    (forall key text fields e,
        st !! key = Some text ->
        JSON_parse text = Some (JObj fields) ->
        assoc "expiresAt" fields = Some (JNum e) ->
        now <= e ->
        st' !! key = Some text).
Proof.
  destruct (clearExpiredCaches_spec now st) as (st' & Hrun & Hlook).
  exists st'. split; [exact Hrun |]. repeat split.
  - intros key text Hst Hpre Hparse. rewrite Hlook. unfold sweep_marks.
    rewrite Hst, Hpre, (startsWith_prefix_nonempty _ Hpre). simpl.
    by rewrite Hparse.
  - intros key text fields e Hst Hpre Hparse Hexp Hlt. rewrite Hlook.
    unfold sweep_marks.
    rewrite Hst, Hpre, (startsWith_prefix_nonempty _ Hpre). simpl.
    rewrite Hparse. simpl. rewrite Hexp. simpl. rewrite num_gt_JNum.
    by rewrite (proj2 (Z.ltb_lt e now) Hlt).
  - intros key Hpre. rewrite Hlook. unfold sweep_marks. rewrite Hpre.
    by rewrite andb_false_r.
  - intros key text fields e Hst Hparse Hexp Hle. rewrite Hlook.
    unfold sweep_marks. rewrite Hst. simpl. rewrite Hparse. simpl.
    rewrite Hexp. simpl. rewrite num_gt_JNum.
    rewrite (proj2 (Z.ltb_ge e now) Hle). by rewrite andb_false_r.
Qed.

End WithPlatform.

End CacheFacts.

(* ===================================================================== *)
(** ** The cache on concrete stores *)
(* ===================================================================== *)

Module CacheScenarios.
Import JS Cache TableHost.
Import CacheFixture.

(** The theorem on a store holding one report written at time 1000: read
    at time 2000 it is returned, read after its expiry it is removed; a
    store with a broken entry, and an empty store, give [null]. *)
Lemma loadFromCache_null_or_payload_witness :
  loadFromCache 2000 "lima-zulu" "cleanup" ∅ = (Ok JNull, ∅) /\
  loadFromCache 2000 "lima-zulu" "cleanup" {[ key := broken_text ]}
    = (Ok JNull, {[ key := broken_text ]}) /\
  loadFromCache 86401001 "lima-zulu" "cleanup" {[ key := report_text ]}
    = (Ok JNull, delete key {[ key := report_text ]}) /\
  loadFromCache 2000 "lima-zulu" "cleanup" {[ key := report_text ]}
    = (Ok (JStr "report"), {[ key := report_text ]}).
Proof.
  split; [| split; [| split]].
  - apply (proj1 (CacheFacts.loadFromCache_null_or_payload
                    2000 "lima-zulu" "cleanup" ∅)).
    reflexivity.
  - apply (proj1 (proj2 (CacheFacts.loadFromCache_null_or_payload
                    2000 "lima-zulu" "cleanup" {[ key := broken_text ]}))
             broken_text); reflexivity.
  - apply (proj1 (proj2 (proj2 (CacheFacts.loadFromCache_null_or_payload
                    86401001 "lima-zulu" "cleanup" {[ key := report_text ]})))
             report_text
             [("data", JStr "report"); ("timestamp", JNum 1000);
              ("expiresAt", JNum 86401000)] 86401000);
      [reflexivity | discriminate | reflexivity | reflexivity | lia].
  - apply (proj2 (proj2 (proj2 (CacheFacts.loadFromCache_null_or_payload
                    2000 "lima-zulu" "cleanup" {[ key := report_text ]})))
             report_text
             [("data", JStr "report"); ("timestamp", JNum 1000);
              ("expiresAt", JNum 86401000)] 86401000);
      [reflexivity | discriminate | reflexivity | reflexivity | lia].
Defined.

(** C2 as stated fails: a stored text that does not parse is reported as
    a miss but stays in the store. *)
Lemma loadFromCache_keeps_malformed_entry :
  JSON_parse broken_text = None /\
  exists st',
    loadFromCache 2000 "lima-zulu" "cleanup" {[ key := broken_text ]}
      = (Ok JNull, st') /\
    st' !! key = Some broken_text.
Proof.
  split; [reflexivity |].
  exists {[ key := broken_text ]}. split; reflexivity.
Qed.

(** The round trip on an empty store: written at time 1000 with a TTL of
    24 hours, read at time 2000. *)
Lemma saveToCache_loadFromCache_roundtrip_witness :
  exists st1,
    saveToCache 1000 "lima-zulu" "cleanup" (JStr "report") 24 ∅ = (Ok tt, st1) /\
    st1 !! key = Some report_text /\
    get_prop report_entry "expiresAt" = Ok (JNum (1000 + 24 * 3600 * 1000)) /\
    loadFromCache 2000 "lima-zulu" "cleanup" st1 = (Ok (JStr "report"), st1).
Proof.
  apply (CacheFacts.saveToCache_loadFromCache_roundtrip
           1000 2000 "lima-zulu" "cleanup" (JStr "report") 24 ∅ report_text);
    [reflexivity | reflexivity | reflexivity | discriminate | lia].
Defined.

(** C3 as stated fails, in two ways.  When the store rejects the write
    for lack of space, the entry is dropped and the read that follows is a
    miss.  And a payload that JSON does not carry unchanged, such as a
    [Date], comes back as another value (here the ISO string). *)
Lemma saveToCache_loadFromCache_roundtrip_fails :
  (exists st1,
      @saveToCache full 1000 "lima-zulu" "cleanup" (JStr "report") 24 ∅
        = (Ok tt, st1) /\
      @loadFromCache full 1000 "lima-zulu" "cleanup" st1 = (Ok JNull, st1) /\
      JNull ≠ JStr "report") /\
  (exists st1,
      @saveToCache dated_host 1000 "lima-zulu" "cleanup" (JDate 0) 24 ∅
        = (Ok tt, st1) /\
      @loadFromCache dated_host 2000 "lima-zulu" "cleanup" st1
        = (Ok (JStr iso_epoch), st1) /\
      JStr iso_epoch ≠ JDate 0).
Proof.
  split.
  - exists ∅. repeat split; [reflexivity.. | discriminate].
  - exists {[ key := dated_text ]}. repeat split; [reflexivity.. | discriminate].
Qed.

(** The sweep of [mixed] at time 100000000. *)
Lemma clearExpiredCaches_removes_expired_and_malformed_witness :
  exists st',
    clearExpiredCaches 100000000 mixed = (Ok tt, st') /\
    st' !! broken_key = None /\
    st' !! expired_key = None /\
    st' !! "theme" = Some broken_text /\
    st' !! fresh_key = Some fresh_text.
Proof.
  destruct (CacheFacts.clearExpiredCaches_removes_expired_and_malformed
              100000000 mixed)
    as (st' & Hrun & Hbroken & Hexpired & Houtside & Hlive).
  exists st'. split; [exact Hrun |]. split; [| split; [| split]].
  - apply (Hbroken broken_key broken_text); reflexivity.
  - apply (Hexpired expired_key report_text
             [("data", JStr "report"); ("timestamp", JNum 1000);
              ("expiresAt", JNum 86401000)] 86401000);
      [reflexivity | reflexivity | reflexivity | reflexivity | lia].
  - rewrite (Houtside "theme"); reflexivity.
  - apply (Hlive fresh_key fresh_text
             [("data", JStr "report"); ("timestamp", JNum 90000000);
              ("expiresAt", JNum 176400000)] 176400000);
      [reflexivity | reflexivity | reflexivity | lia].
Defined.


End CacheScenarios.

(* ===================================================================== *)
(** ** The status probes of the remote client *)
(* ===================================================================== *)

Module ApiFacts.
Import JS GitHubApi.
Import ApiFixture.

(** [get] throws an error with status 404 exactly on a 404 response. *)
Lemma get_status_404 net endpoint :
  (exists e, get net endpoint = Throw e /\ exn_status e = Some 404) <->
  (exists r, net (GITHUB_API_BASE +:+ endpoint) = Resolved r /\ status r = 404).
Proof.
  unfold get. split.
  - intros (e & Hget & Hstatus).
    destruct (net (GITHUB_API_BASE +:+ endpoint)) as [|r]; [by simplify_eq |].
    exists r. split; [done |].
    destruct (ok r); simpl in Hget.
    + destruct (json r); by simplify_eq/=.
    + by simplify_eq/=.
  - intros (r & -> & Hstatus). exists (HttpError 404).
    unfold ok. rewrite Hstatus. done.
Qed.

(** C4: [isBranchProtected] returns [true] exactly when the fetch of the
    protection sub-resource succeeds, returns [false] exactly when the
    response has status 404, and re-throws every other failure. *)
Theorem isBranchProtected_true_false_or_rethrow net owner repo branch :
  (isBranchProtected net owner repo branch = Ok true <->
   exists v, get net (protection_endpoint owner repo branch) = Ok v) /\
  (isBranchProtected net owner repo branch = Ok false <->
   exists r,
     net (GITHUB_API_BASE +:+ protection_endpoint owner repo branch)
       = Resolved r /\
     status r = 404) /\
  (forall e,
      get net (protection_endpoint owner repo branch) = Throw e ->
      exn_status e ≠ Some 404 ->
      isBranchProtected net owner repo branch = Throw e).
Proof.
  rewrite <- get_status_404. unfold isBranchProtected.
  destruct (get net (protection_endpoint owner repo branch)) as [v | e] eqn:Hget.
  - repeat split; try done.
    + eauto.
    + intros (e & ? & _). done.
  - destruct (decide (exn_status e = Some 404)) as [H404 | Hother].
    + repeat split; try done.
      * intros [v ?]. done.
      * eauto.
      * intros e' ? ?. by simplify_eq.
    + repeat split; try done.
      * intros [v ?]. done.
      * intros (e' & ? & ?). by simplify_eq.
      * intros e' ? ?. by simplify_eq.
Qed.

(** The probe on a protected branch, an unprotected branch, a server
    error and an unreachable network. *)
Lemma isBranchProtected_true_false_or_rethrow_witness :
  isBranchProtected (answering 200) "lima-zulu" "analyser" "main" = Ok true /\
  isBranchProtected (answering 404) "lima-zulu" "analyser" "main" = Ok false /\
  isBranchProtected (answering 500) "lima-zulu" "analyser" "main"
    = Throw (HttpError 500) /\
  isBranchProtected unreachable "lima-zulu" "analyser" "main" = Throw TypeError.
Proof.
  split; [| split; [| split]].
  - apply (proj1 (isBranchProtected_true_false_or_rethrow
                    (answering 200) "lima-zulu" "analyser" "main")).
    exists (JObj []). reflexivity.
  - apply (proj1 (proj2 (isBranchProtected_true_false_or_rethrow
                           (answering 404) "lima-zulu" "analyser" "main"))).
    exists {| status := 404; json := Some (JObj []) |}.
    split; reflexivity.
  - apply (proj2 (proj2 (isBranchProtected_true_false_or_rethrow
                           (answering 500) "lima-zulu" "analyser" "main"))).
    + reflexivity.
    + discriminate.
  - apply (proj2 (proj2 (isBranchProtected_true_false_or_rethrow
                           unreachable "lima-zulu" "analyser" "main"))).
    + reflexivity.
    + discriminate.
Defined.

(** C10: when the request completes, [isDependabotEnabled] returns [true]
    exactly when the status is 204, and [false] for every other status;
    when the request throws, it returns [true]. *)
Theorem isDependabotEnabled_204_or_assumed net owner repo :
  (forall r,
      net (vulnerability_alerts_url owner repo) = Resolved r ->
      (isDependabotEnabled net owner repo = Ok true <-> status r = 204) /\
      (isDependabotEnabled net owner repo = Ok false <-> status r ≠ 204)) /\
  (net (vulnerability_alerts_url owner repo) = Rejected ->
   isDependabotEnabled net owner repo = Ok true).
Proof.
  unfold isDependabotEnabled. split.
  - intros r ->.
    destruct (Z.eqb_spec (status r) 204) as [Heq | Hne]; split; split; done.
  - by intros ->.
Qed.

(** The probe on an enabled repository, a disabled one, a server error
    and an unreachable network. *)
Lemma isDependabotEnabled_204_or_assumed_witness :
  isDependabotEnabled (answering 204) "lima-zulu" "analyser" = Ok true /\
  isDependabotEnabled (answering 404) "lima-zulu" "analyser" = Ok false /\
  isDependabotEnabled (answering 500) "lima-zulu" "analyser" = Ok false /\
  isDependabotEnabled unreachable "lima-zulu" "analyser" = Ok true.
Proof.
  split; [| split; [| split]].
  - apply (proj1 (proj1 (isDependabotEnabled_204_or_assumed
                           (answering 204) "lima-zulu" "analyser")
                    {| status := 204; json := Some (JObj []) |} eq_refl)).
    reflexivity.
  - apply (proj2 (proj1 (isDependabotEnabled_204_or_assumed
                           (answering 404) "lima-zulu" "analyser")
                    {| status := 404; json := Some (JObj []) |} eq_refl)).
    discriminate.
  - apply (proj2 (proj1 (isDependabotEnabled_204_or_assumed
                           (answering 500) "lima-zulu" "analyser")
                    {| status := 500; json := Some (JObj []) |} eq_refl)).
    discriminate.
  - apply (proj2 (isDependabotEnabled_204_or_assumed
                    unreachable "lima-zulu" "analyser")).
    reflexivity.
Defined.


End ApiFacts.

(* ===================================================================== *)
(** ** Sorting and truncation *)
(* ===================================================================== *)

Module ArrayFacts.
Import JSArray.
Import ArraySpec.

Section Sort.
Context {A : Type} (compareFn : A -> A -> Z).

Lemma insert_before_Permutation x l : insert_before compareFn x l ≡ₚ x :: l.
Proof.
  induction l as [|y l IH]; simpl; [done |].
  destruct (compareFn x y <=? 0); [done |].
  rewrite IH. apply Permutation_swap.
Qed.

Lemma sort_Permutation l : sort compareFn l ≡ₚ l.
Proof.
  induction l as [|x l IH]; simpl; [done |].
  by rewrite insert_before_Permutation, IH.
Qed.


(** The comparator never asks for both orders of a pair. *)
Hypothesis compareFn_asym : forall x y, 0 < compareFn x y -> compareFn y x <= 0.

Lemma insert_before_Sorted x l :
  Sorted (before compareFn) l -> Sorted (before compareFn) (insert_before compareFn x l).
Proof.
  induction l as [|y l IH]; intros Hsorted; simpl.
  - repeat constructor.
  - destruct (Z.leb_spec (compareFn x y) 0) as [Hle | Hgt].
    + constructor; [done |]. by constructor.
    + apply Sorted_inv in Hsorted as [Hl Hhd].
      constructor; [by apply IH |].
      destruct l as [|z l]; simpl.
      * constructor. by apply compareFn_asym.
      * destruct (compareFn x z <=? 0).
        -- constructor. by apply compareFn_asym.
        -- constructor. by apply HdRel_inv in Hhd.
Qed.

Lemma sort_Sorted l : Sorted (before compareFn) (sort compareFn l).
Proof.
  induction l as [|x l IH]; simpl; [constructor |].
  by apply insert_before_Sorted.
Qed.

Lemma sort_StronglySorted `{!Transitive (before compareFn)} l :
  StronglySorted (before compareFn) (sort compareFn l).
Proof. apply Sorted_StronglySorted; [done | apply sort_Sorted]. Qed.
End Sort.

(** Sortedness carries over to an equivalent relation. *)
Lemma StronglySorted_iff {A} (R1 R2 : relation A) l :
  (forall a b, R1 a b <-> R2 a b) ->
  StronglySorted R1 l -> StronglySorted R2 l.
Proof.
  intros Hiff. induction 1 as [|x l Hl IH Hall]; constructor; [done |].
  eapply Forall_impl; [exact Hall |]. intros y. apply Hiff.
Qed.

(** [slice(0, end)] with a limit that is not negative keeps the first
    [end] elements. *)
Lemma slice0_take {A} (l : list A) (limit : Z) :
  0 <= limit -> slice0 l limit = take (Z.to_nat limit) l.
Proof.
  intros Hlimit. unfold slice0.
  destruct (Z.ltb_spec limit 0) as [? | _]; [lia |].
  destruct (Z.le_ge_cases limit (Z.of_nat (length l))) as [Hle | Hge].
  - by rewrite Z.min_l.
  - rewrite Z.min_r by done. rewrite Nat2Z.id.
    rewrite !take_ge; [done | lia | lia].
Qed.

Lemma slice0_length {A} (l : list A) (limit : Z) :
  0 <= limit ->
  Z.of_nat (length (slice0 l limit)) = Z.min limit (Z.of_nat (length l)).
Proof. intros Hlimit. rewrite slice0_take by done. rewrite length_take. lia. Qed.


End ArrayFacts.

(* ===================================================================== *)
(** ** The order of the alert list *)
(* ===================================================================== *)

Module SecurityFacts.
Import JSArray Builders Builders.Security.
Import SecuritySpec.

Lemma compareAlerts_before a b :
  ArraySpec.before compareAlerts a b <-> alerts_before a b.
Proof.
  unfold ArraySpec.before, compareAlerts, alerts_before.
  destruct (Z.eqb_spec (critical b) (critical a));
    destruct (Z.eqb_spec (high b) (high a));
    destruct (Z.eqb_spec (medium b) (medium a)); simpl; lia.
Qed.

Lemma compareAlerts_asym a b :
  0 < compareAlerts a b -> compareAlerts b a <= 0.
Proof.
  unfold compareAlerts.
  destruct (Z.eqb_spec (critical b) (critical a));
    destruct (Z.eqb_spec (high b) (high a));
    destruct (Z.eqb_spec (medium b) (medium a));
    destruct (Z.eqb_spec (critical a) (critical b));
    destruct (Z.eqb_spec (high a) (high b));
    destruct (Z.eqb_spec (medium a) (medium b)); simpl; lia.
Qed.

#[local] Instance compareAlerts_trans : Transitive (ArraySpec.before compareAlerts).
Proof.
  intros a b c. rewrite !compareAlerts_before. unfold alerts_before. lia.
Qed.

#[local] Instance alerts_before_proper :
  Proper (eq ==> eq ==> iff) alerts_before.
Proof. by intros ?? -> ?? ->. Qed.

(** The comparator of the GovernanceRepo component is the same function. *)
Lemma GovernanceRepo_compareAlerts a b :
  GovernanceRepo.compareAlerts a b = compareAlerts a b.
Proof. reflexivity. Qed.

Lemma sortAlerts_sorted withAlerts :
  StronglySorted alerts_before (sort compareAlerts withAlerts).
Proof.
  apply (ArrayFacts.StronglySorted_iff (ArraySpec.before compareAlerts));
    [apply compareAlerts_before |].
  apply ArrayFacts.sort_StronglySorted; [apply compareAlerts_asym | apply _].
Qed.

(** On such rows the comparator also orders by the [low] tier. *)
Lemma alerts_before_with_low_iff a b :
  tiers_cover_total a -> tiers_cover_total b ->
  (alerts_before a b <-> alerts_before_with_low a b).
Proof. unfold tiers_cover_total, alerts_before, alerts_before_with_low. lia. Qed.

(** C5, as the code has it: the sorted list is a rearrangement of the
    rows in which every row stands before every later one in the order
    critical, high, medium, total (each descending); the GovernanceRepo
    component sorts in the same way; and the rows {2,0}, {1,5}, {2,1} come
    out as {2,1}, {2,0}, {1,5}. *)
Theorem sortAlerts_by_critical_high_medium_total :
  (forall withAlerts,
      sort compareAlerts withAlerts ≡ₚ withAlerts /\
      StronglySorted alerts_before (sort compareAlerts withAlerts) /\
      GovernanceRepo.sortAlerts withAlerts = sort compareAlerts withAlerts) /\
  sort compareAlerts [row_2_0; row_1_5; row_2_1] = [row_2_1; row_2_0; row_1_5].
Proof.
  split; [| reflexivity].
  intros withAlerts. split; [apply ArrayFacts.sort_Permutation |].
  split; [apply sortAlerts_sorted | reflexivity].
Qed.

(** C5 as stated fails: the row with fewer low alerts but more alerts in
    total is sorted first, against the order with a [low] tier. *)
Lemma sortAlerts_ignores_low_tier :
  sort compareAlerts [row_low_2; row_low_1_of_5] = [row_low_1_of_5; row_low_2] /\
  ¬ alerts_before_with_low row_low_1_of_5 row_low_2 /\
  ¬ StronglySorted alerts_before_with_low
      (sort compareAlerts [row_low_2; row_low_1_of_5]).
Proof.
  assert (¬ alerts_before_with_low row_low_1_of_5 row_low_2) as Hnot.
  { unfold alerts_before_with_low. vm_compute. intuition discriminate. }
  split; [reflexivity |]. split; [exact Hnot |].
  intros Hsorted. apply Hnot.
  change (sort compareAlerts [row_low_2; row_low_1_of_5])
    with [row_low_1_of_5; row_low_2] in Hsorted.
  apply StronglySorted_inv in Hsorted as [_ Hall].
  by apply Forall_inv in Hall.
Qed.


End SecurityFacts.

(* ===================================================================== *)
(** ** The active set *)
(* ===================================================================== *)

Module ActiveSetFacts.
Import Builders.
Import ActiveSetSpec.





End ActiveSetFacts.

(* ===================================================================== *)
(** ** The cleanup builder *)
(* ===================================================================== *)

Module CleanupFacts.
Import JSArray Builders Builders.CleanupNeeded.
Import CleanupSpec.

(** *** Builder code only appends to the log of requests *)

Lemma appends_ret {A} (a : A) : appends (ret a).
Proof. intros log. unfold ret, value_of, requests_of. simpl. by rewrite app_nil_r. Qed.

Lemma appends_request {A} c (a : A) : appends (request c a).
Proof. intros log. reflexivity. Qed.

Lemma bind_appends {A B} (m : Fetch A) (k : A -> Fetch B) :
  appends m -> (forall a, appends (k a)) ->
  appends (bind m k) /\
  value_of (bind m k) = value_of (k (value_of m)) /\
  requests_of (bind m k) = requests_of m ++ requests_of (k (value_of m)).
Proof.
  intros Hm Hk.
  assert (forall log,
            bind m k log
            = (value_of (k (value_of m)),
               log ++ requests_of m ++ requests_of (k (value_of m)))) as Hrun.
  { intros log. unfold bind. rewrite (Hm log). rewrite (Hk _ _).
    by rewrite (assoc_L (++)). }
  split; [| split].
  - intros log. rewrite Hrun. unfold value_of, requests_of. by rewrite (Hrun []).
  - unfold value_of at 1. by rewrite (Hrun []).
  - unfold requests_of at 1. by rewrite (Hrun []).
Qed.

Lemma all_request_appends {A B} (call : A -> Call) (answer : A -> B) items :
  appends (all (fun x => request (call x) (answer x)) items) /\
  value_of (all (fun x => request (call x) (answer x)) items) = answer <$> items /\
  requests_of (all (fun x => request (call x) (answer x)) items) = call <$> items.
Proof.
  induction items as [|x items (IHa & IHv & IHr)].
  - split; [apply appends_ret | done].
  - cbn [all].
    destruct (bind_appends (request (call x) (answer x))
                (fun y => bind (all (fun x => request (call x) (answer x)) items)
                            (fun ys => ret (y :: ys))))
      as (Ha & Hv & Hr).
    { apply appends_request. }
    { intros y. apply bind_appends; [done | intros; apply appends_ret]. }
    destruct (bind_appends (all (fun x => request (call x) (answer x)) items)
                (fun ys => ret (answer x :: ys)))
      as (Ha' & Hv' & Hr'); [done | intros; apply appends_ret |].
    split; [exact Ha |]. split.
    + rewrite Hv. change (value_of (request (call x) (answer x))) with (answer x).
      rewrite Hv', IHv. reflexivity.
    + rewrite Hr. change (value_of (request (call x) (answer x))) with (answer x).
      rewrite Hr', IHr. change (requests_of (request (call x) (answer x))) with [call x].
      change (requests_of (ret (answer x :: value_of (all (fun x => request (call x) (answer x)) items)))) with (@nil Call).
      by rewrite app_nil_r.
Qed.

(** *** The stale-branch step *)

Lemma staleBranchStep_over api cfg orgName repo branches :
  branchWarningThreshold cfg
    < Z.of_nat (length (nonDefaultBranches repo branches)) ->
  staleBranchStep api cfg orgName repo branches
    = ret [ WarningRow (name repo) (html_url repo)
              (Z.of_nat (length (nonDefaultBranches repo branches))) ].
Proof.
  intros Hover. unfold staleBranchStep.
  by rewrite (proj2 (Z.ltb_lt _ _) Hover).
Qed.

Lemma staleBranchStep_within api cfg orgName repo branches :
  Z.of_nat (length (nonDefaultBranches repo branches))
    <= branchWarningThreshold cfg ->
  appends (staleBranchStep api cfg orgName repo branches) /\
  requests_of (staleBranchStep api cfg orgName repo branches)
    = detailsCalls orgName repo branches /\
  Forall (fun row => isWarning row = false /\ repoName row = name repo)
    (value_of (staleBranchStep api cfg orgName repo branches)).
Proof.
  intros Hwithin. unfold staleBranchStep.
  rewrite (proj2 (Z.ltb_ge _ _) Hwithin).
  destruct (all_request_appends
              (fun branch =>
                 CallBranchDetails orgName (name repo) (branch_name branch))
              (fun branch =>
                 getBranchDetails api orgName (name repo) (branch_name branch))
              (nonDefaultBranches repo branches)) as (Ha & Hv & Hr).
  match goal with
  | |- appends (bind ?m ?k) /\ _ =>
      destruct (bind_appends m k) as (Ha' & Hv' & Hr');
        [exact Ha | intros; apply appends_ret |]
  end.
  split; [exact Ha' |]. split.
  - rewrite Hr', Hr. unfold requests_of at 1. simpl. by rewrite app_nil_r.
  - rewrite Hv'. unfold value_of at 1. simpl.
    match goal with
    | |- context [if ?c then _ else _] => destruct c
    end; repeat constructor.
Qed.

Lemma staleBranchStep_appends api cfg orgName repo branches :
  appends (staleBranchStep api cfg orgName repo branches).
Proof.
  destruct (Z.lt_ge_cases (branchWarningThreshold cfg)
              (Z.of_nat (length (nonDefaultBranches repo branches))))
    as [Hover | Hwithin].
  - rewrite staleBranchStep_over by done. apply appends_ret.
  - by apply staleBranchStep_within.
Qed.

(** Every row of the step carries the name of its repository. *)
Lemma staleBranchStep_rows_named api cfg orgName repo branches :
  Forall (fun row => repoName row = name repo)
    (value_of (staleBranchStep api cfg orgName repo branches)).
Proof.
  destruct (Z.lt_ge_cases (branchWarningThreshold cfg)
              (Z.of_nat (length (nonDefaultBranches repo branches))))
    as [Hover | Hwithin].
  - rewrite staleBranchStep_over by done. by repeat constructor.
  - destruct (staleBranchStep_within api cfg orgName repo branches Hwithin)
      as (_ & _ & Hrows).
    eapply Forall_impl; [exact Hrows |]. by intros row [_ ?].
Qed.

(** Every request of the step is a detail request for its repository. *)
Lemma staleBranchStep_requests_named api cfg orgName repo branches :
  Forall (fun c => isDetailsCallFor orgName (name repo) c = true)
    (requests_of (staleBranchStep api cfg orgName repo branches)).
Proof.
  destruct (Z.lt_ge_cases (branchWarningThreshold cfg)
              (Z.of_nat (length (nonDefaultBranches repo branches))))
    as [Hover | Hwithin].
  - rewrite staleBranchStep_over by done. constructor.
  - destruct (staleBranchStep_within api cfg orgName repo branches Hwithin)
      as (_ & -> & _).
    unfold detailsCalls. apply Forall_fmap, Forall_forall. intros branch _.
    simpl. by rewrite !String.eqb_refl.
Qed.

(** *** One iteration and the loop *)

Lemma processRepo_spec api cfg orgName acc repo log :
  exists acc',
    processRepo api cfg orgName acc repo log
      = (acc', log ++ requestsOf api cfg orgName repo) /\
    reposWithStaleBranches acc'
      = reposWithStaleBranches acc ++ staleRowsOf api cfg orgName repo.
Proof.
  unfold processRepo, bind, request.
  rewrite (staleBranchStep_appends api cfg orgName repo _ _).
  unfold ret. eexists. split.
  - apply (f_equal2 pair); [reflexivity |].
    unfold requestsOf, detailRequestsOf.
    by rewrite <- !(assoc_L (++)).
  - reflexivity.
Qed.

Lemma for_of_processRepo_spec api cfg orgName rs acc log :
  exists acc',
    for_of (processRepo api cfg orgName) rs acc log
      = (acc', log ++ concat (requestsOf api cfg orgName <$> rs)) /\
    reposWithStaleBranches acc'
      = reposWithStaleBranches acc
          ++ concat (staleRowsOf api cfg orgName <$> rs).
Proof.
  revert acc log. induction rs as [|repo rs IH]; intros acc log.
  - exists acc. simpl. unfold ret. by rewrite !app_nil_r.
  - cbn [for_of]. unfold bind.
    destruct (processRepo_spec api cfg orgName acc repo log)
      as (acc1 & -> & Hrows1).
    destruct (IH acc1 (log ++ requestsOf api cfg orgName repo))
      as (acc2 & -> & Hrows2).
    exists acc2. split.
    + by rewrite fmap_cons, concat_cons, (assoc_L (++)).
    + by rewrite Hrows2, Hrows1, fmap_cons, concat_cons, (assoc_L (++)).
Qed.

(** The report, and the requests behind it. *)
Lemma build_spec api cfg orgName repos log :
  exists collected,
    build api cfg orgName repos log
      = (finish collected,
         log ++ concat (requestsOf api cfg orgName <$> activeRepos repos)) /\
    reposWithStaleBranches collected
      = concat (staleRowsOf api cfg orgName <$> activeRepos repos).
Proof.
  unfold build, bind.
  match goal with
  | |- context [for_of _ _ ?acc log] =>
      destruct (for_of_processRepo_spec api cfg orgName (activeRepos repos)
                  acc log) as (collected & -> & Hrows)
  end.
  exists collected. split; [reflexivity | exact Hrows].
Qed.

(** *** Selecting what belongs to one repository *)

(** When the repositories have distinct names and the part of [f r]
    selected by [p n] is [g r] under the name of [r] and nothing under
    another name, selecting from the concatenation over all repositories
    gives [g] of the one repository. *)
Lemma filter_concat_by_name {B} (f g : Repo -> list B)
    (p : string -> B -> bool) (rs : list Repo) (repo : Repo) :
  NoDup (name <$> rs) ->
  repo ∈ rs ->
  (forall r n,
      filter (fun b => p n b) (f r) = if decide (n = name r) then g r else []) ->
  filter (fun b => p (name repo) b) (concat (f <$> rs)) = g repo.
Proof.
  intros Hnodup Hin Hf.
  induction rs as [|r rs IH]; [by apply elem_of_nil in Hin |].
  rewrite fmap_cons in Hnodup. apply NoDup_cons in Hnodup as [Hfresh Hnodup].
  rewrite fmap_cons, concat_cons, filter_app, Hf.
  assert (forall r0, name r0 ∉ name <$> rs ->
            filter (fun b => p (name r0) b) (concat (f <$> rs)) = []) as Hrest.
  { intros r0 Hr0. clear IH Hin Hnodup Hfresh.
    induction rs as [|r' rs IH']; [done |].
    rewrite fmap_cons in Hr0. apply not_elem_of_cons in Hr0 as [Hne Hr0].
    rewrite fmap_cons, concat_cons, filter_app, Hf.
    rewrite decide_False by done. by apply IH'. }
  apply elem_of_cons in Hin as [-> | Hin].
  - rewrite decide_True by done. rewrite Hrest by done. by rewrite app_nil_r.
  - rewrite decide_False.
    + by apply IH.
    + intros Heq. apply Hfresh. rewrite <- Heq. by apply list_elem_of_fmap_2.
Qed.

Lemma filter_all {B} (p : B -> bool) l :
  Forall (fun b => p b = true) l -> filter (fun b => p b) l = l.
Proof.
  induction 1 as [|b l Hb _ IH]; [done |].
  rewrite filter_cons, decide_True by (by rewrite Hb). by rewrite IH.
Qed.

Lemma filter_none {B} (p : B -> bool) l :
  Forall (fun b => p b = false) l -> filter (fun b => p b) l = [].
Proof.
  induction 1 as [|b l Hb _ IH]; [done |].
  rewrite filter_cons, decide_False by (rewrite Hb; intros []). done.
Qed.

Lemma isDetailsCallFor_other orgName n n' c :
  n ≠ n' -> isDetailsCallFor orgName n' c = true ->
  isDetailsCallFor orgName n c = false.
Proof.
  intros Hne. destruct c; simpl; try done.
  intros [_ ->%String.eqb_eq]%andb_true_iff.
  apply andb_false_iff. right. by apply String.eqb_neq.
Qed.

(** The detail requests for a repository in the log of a build. *)
Lemma requestsOf_details api cfg orgName rs repo :
  NoDup (name <$> rs) ->
  repo ∈ rs ->
  filter (fun c => isDetailsCallFor orgName (name repo) c)
    (concat (requestsOf api cfg orgName <$> rs))
  = detailRequestsOf api cfg orgName repo.
Proof.
  intros Hnodup Hin.
  apply (filter_concat_by_name (requestsOf api cfg orgName)
           (detailRequestsOf api cfg orgName)
           (isDetailsCallFor orgName) rs repo Hnodup Hin).
  intros r n. unfold requestsOf. rewrite filter_app.
  rewrite (filter_none (isDetailsCallFor orgName n) [_; _; _])
    by (by repeat constructor).
  simpl. destruct (decide (n = name r)) as [-> | Hne].
  - apply filter_all. apply staleBranchStep_requests_named.
  - apply filter_none.
    eapply Forall_impl; [apply staleBranchStep_requests_named |].
    intros c. by apply isDetailsCallFor_other.
Qed.

(** The rows of a repository among the collected rows. *)
Lemma staleRowsOf_rows api cfg orgName rs repo :
  NoDup (name <$> rs) ->
  repo ∈ rs ->
  filter (fun row => isRowOf (name repo) row)
    (concat (staleRowsOf api cfg orgName <$> rs))
  = staleRowsOf api cfg orgName repo.
Proof.
  intros Hnodup Hin.
  apply (filter_concat_by_name (staleRowsOf api cfg orgName)
           (staleRowsOf api cfg orgName) isRowOf rs repo Hnodup Hin).
  intros r n. destruct (decide (n = name r)) as [-> | Hne].
  - apply filter_all.
    eapply Forall_impl; [apply staleBranchStep_rows_named |].
    intros row Hrow. unfold isRowOf. by apply String.eqb_eq.
  - apply filter_none.
    eapply Forall_impl; [apply staleBranchStep_rows_named |].
    intros row Hrow. unfold isRowOf. apply String.eqb_neq. by rewrite Hrow.
Qed.

(** *** The branch-volume guard *)

(** C8.  In the iteration for a repository with more non-default branches
    than the warning threshold, the builder appends exactly one row to the
    stale-branch list, the warning marker with the branch count, and issues
    the three list requests and no per-branch detail request; in the
    iteration for a repository at or below the threshold it requests the
    details of every non-default branch, in order.  Hence, in a build over
    repositories with distinct names, the sorted list holds exactly one row
    for an active repository over the threshold, the warning marker, and
    the log holds no detail request for it, while for an active repository
    at or below the threshold it holds one detail request per non-default
    branch. *)
Theorem branch_volume_guard api cfg orgName :
  (forall acc repo log,
      let branches := getRepoBranches api orgName (name repo) in
      let nonDefault := nonDefaultBranches repo branches in
      exists acc',
        (branchWarningThreshold cfg < Z.of_nat (length nonDefault) ->
         processRepo api cfg orgName acc repo log
           = (acc', log ++ listRequests orgName repo) /\
         reposWithStaleBranches acc'
           = reposWithStaleBranches acc
               ++ [ WarningRow (name repo) (html_url repo)
                      (Z.of_nat (length nonDefault)) ]) /\
        (Z.of_nat (length nonDefault) <= branchWarningThreshold cfg ->
         processRepo api cfg orgName acc repo log
           = (acc',
              log ++ listRequests orgName repo
                  ++ ((fun branch =>
                         CallBranchDetails orgName (name repo) (branch_name branch))
                        <$> nonDefault)))) /\
  (forall repos repo,
      NoDup (name <$> activeRepos repos) ->
      repo ∈ activeRepos repos ->
      let branches := getRepoBranches api orgName (name repo) in
      let nonDefault := nonDefaultBranches repo branches in
      let result := build api cfg orgName repos [] in
      (branchWarningThreshold cfg < Z.of_nat (length nonDefault) ->
       filter (fun row => isRowOf (name repo) row) (staleBranches result.1)
         = [ WarningRow (name repo) (html_url repo) (Z.of_nat (length nonDefault)) ] /\
       filter (fun c => isDetailsCallFor orgName (name repo) c) result.2 = []) /\
      (Z.of_nat (length nonDefault) <= branchWarningThreshold cfg ->
       filter (fun c => isDetailsCallFor orgName (name repo) c) result.2
         = (fun branch => CallBranchDetails orgName (name repo) (branch_name branch))
             <$> nonDefault)).
Proof.
  split.
  - intros acc repo log branches nonDefault.
    destruct (processRepo_spec api cfg orgName acc repo log)
      as (acc' & Hrun & Hrows).
    exists acc'. unfold requestsOf, detailRequestsOf, staleRowsOf in *.
    fold branches in Hrun, Hrows. split.
    + intros Hover. rewrite staleBranchStep_over in Hrun, Hrows by done.
      split; [| exact Hrows].
      rewrite Hrun. reflexivity.
    + intros Hwithin.
      destruct (staleBranchStep_within api cfg orgName repo branches Hwithin)
        as (_ & Hreq & _).
      rewrite Hrun, Hreq. reflexivity.
  - intros repos repo Hnodup Hin branches nonDefault result.
    destruct (build_spec api cfg orgName repos []) as (collected & Hbuild & Hrows).
    assert (result.2 = concat (requestsOf api cfg orgName <$> activeRepos repos))
      as Hlog by (unfold result; by rewrite Hbuild).
    assert (staleBranches result.1
              ≡ₚ concat (staleRowsOf api cfg orgName <$> activeRepos repos))
      as Hperm.
    { unfold result. rewrite Hbuild. simpl. rewrite <- Hrows.
      apply ArrayFacts.sort_Permutation. }
    split.
    + intros Hover. split.
      * apply Permutation_singleton_r. rewrite Hperm.
        rewrite staleRowsOf_rows by done.
        unfold staleRowsOf. fold branches.
        by rewrite staleBranchStep_over.
      * rewrite Hlog, requestsOf_details by done.
        unfold detailRequestsOf. fold branches.
        by rewrite staleBranchStep_over.
    + intros Hwithin.
      rewrite Hlog, requestsOf_details by done.
      unfold detailRequestsOf. fold branches.
      by destruct (staleBranchStep_within api cfg orgName repo branches Hwithin)
        as (_ & -> & _).
Qed.


End CleanupFacts.

(* ===================================================================== *)
(** ** Totals, sorting and truncation of the reports *)
(* ===================================================================== *)

Module ReportFacts.
Import JSArray Builders.
Import CleanupNeeded.
Import ReportSpec.

Lemma compareStale_before a b :
  ArraySpec.before compareStale a b <-> stale_before a b.
Proof.
  unfold ArraySpec.before, compareStale.
  destruct a, b; simpl; lia.
Qed.


#[local] Instance compareStale_trans : Transitive (ArraySpec.before compareStale).
Proof.
  intros a b c. rewrite !compareStale_before.
  destruct a, b, c; simpl; lia.
Qed.


#[local] Instance compareInactive_trans :
  Transitive (ArraySpec.before compareInactive).
Proof. intros a b c. unfold ArraySpec.before, compareInactive. lia. Qed.


#[local] Instance compareOldPR_trans :
  Transitive (ArraySpec.before compareOldPR).
Proof. intros a b c. unfold ArraySpec.before, compareOldPR. lia. Qed.





End ReportFacts.

(* ===================================================================== *)
(** ** The builders on a small organisation *)
(* ===================================================================== *)

Module BuilderScenarios.
Import JSArray Builders.
Import CleanupNeeded.
Import BuilderFixture.

Lemma repos_active : CleanupNeeded.activeRepos repos = [calm; busy; quiet].
Proof. reflexivity. Qed.

Lemma repos_distinct : NoDup (name <$> CleanupNeeded.activeRepos repos).
Proof. apply (bool_decide_unpack _). vm_compute. exact I. Defined.

(** The guard on [busy] (three branches against a threshold of two) and
    on [calm] (one branch). *)
Lemma branch_volume_guard_witness :
  (filter (fun row => CleanupSpec.isRowOf "busy" row)
     (staleBranches (build api cfg org repos []).1) = [busy_row] /\
   filter (fun c => CleanupSpec.isDetailsCallFor org "busy" c)
     (build api cfg org repos []).2 = []) /\
  filter (fun c => CleanupSpec.isDetailsCallFor org "calm" c)
    (build api cfg org repos []).2 = [CallBranchDetails org "calm" "dev"].
Proof.
  split.
  - apply (proj1 (proj2 (CleanupFacts.branch_volume_guard api cfg org)
                    repos busy repos_distinct
                    ltac:(rewrite repos_active; right; left))).
    simpl. lia.
  - apply (proj2 (proj2 (CleanupFacts.branch_volume_guard api cfg org)
                    repos calm repos_distinct
                    ltac:(rewrite repos_active; left))).
    simpl. lia.
Defined.




End BuilderScenarios.

(* ===================================================================== *)
(** ** Reads, invalidation and the sweep together *)
(* ===================================================================== *)

Module CacheLaws.
Import JS Cache CacheOrg.
Import CacheSpec CacheKeySpec ReadSpec.

Section WithPlatform.
Context `{Platform}.

(** A read, as a function of the text stored under its key. *)
Lemma loadFromCache_run now org type (st : Storage) :
  loadFromCache now org type st
    = (Ok (read_value now (st !! getCacheKey org type)),
       if read_removes now (st !! getCacheKey org type)
       then delete (getCacheKey org type) st else st).
Proof.
  unfold loadFromCache, try_catch, bind, getItem, read_value, read_removes.
  destruct (st !! getCacheKey org type) as [text|]; simpl; [| done].
  destruct (String.eqb text ""); simpl; [done |].
  unfold parse. destruct (JSON_parse text) as [v|]; simpl; [| done].
  unfold prop. destruct (get_prop v "expiresAt") as [e|err]; simpl; [| done].
  destruct (num_gt now e); simpl; [done |].
  by destruct (get_prop v "data").
Qed.

(** An entry that a read removes reads as [null]. *)
Lemma read_removes_null now entry :
  read_removes now entry = true -> read_value now entry = JNull.
Proof.
  unfold read_removes, read_value. destruct entry as [text|]; [| done].
  destruct (String.eqb text ""); simpl; [done |].
  destruct (JSON_parse text) as [v|]; [| done].
  destruct (get_prop v "expiresAt") as [e|]; [| done].
  by intros ->.
Qed.

(** X1: a read never writes.  Every key other than its own keeps its
    entry, its own key keeps its entry or loses it, and it loses it only
    when the read returns [null]. *)
Theorem loadFromCache_only_removes_own_key now org type (st : Storage) :
  exists v st',
    loadFromCache now org type st = (Ok v, st') /\
    (forall key, key ≠ getCacheKey org type -> st' !! key = st !! key) /\
    (st' !! getCacheKey org type = st !! getCacheKey org type \/
     (st' !! getCacheKey org type = None /\ v = JNull)).
Proof.
  rewrite loadFromCache_run. eexists _, _. split; [reflexivity |].
  destruct (read_removes now (st !! getCacheKey org type)) eqn:Hrem.
  - split.
    + intros key Hne. by rewrite lookup_delete_ne.
    + right. split; [apply lookup_delete_eq | by apply read_removes_null].
  - split; [done | by left].
Qed.

(** X2: reading is idempotent.  A second read at the same time returns the
    same value and leaves the store as the first read left it. *)
Theorem loadFromCache_idempotent now org type (st : Storage) :
  exists v st',
    loadFromCache now org type st = (Ok v, st') /\
    loadFromCache now org type st' = (Ok v, st').
Proof.
  rewrite loadFromCache_run. eexists _, _. split; [reflexivity |].
  rewrite loadFromCache_run.
  destruct (read_removes now (st !! getCacheKey org type)) eqn:Hrem.
  - rewrite lookup_delete_eq. simpl.
    by rewrite (read_removes_null _ _ Hrem).
  - by rewrite Hrem.
Qed.

(** Expiry is permanent. *)
Lemma num_gt_mono now now' v :
  now <= now' -> num_gt now v = true -> num_gt now' v = true.
Proof.
  unfold num_gt. intros Hle. destruct (ToNumber v) as [m|]; [| done].
  intros Hlt%Z.ltb_lt. apply Z.ltb_lt. lia.
Qed.

(** A key that the sweep marks reads as [null] from then on. *)
Lemma sweep_marks_null now now' (st : Storage) key :
  now <= now' ->
  sweep_marks now st key = true ->
  read_value now' (st !! key) = JNull.
Proof.
  intros Hle. unfold sweep_marks, read_value.
  destruct (st !! key) as [text|]; simpl; [| done].
  intros [_ Hmark]%andb_true_iff.
  destruct (String.eqb text ""); [done |].
  destruct (JSON_parse text) as [v|]; [| done].
  destruct (get_prop v "expiresAt") as [e|]; [| done].
  by rewrite (num_gt_mono _ _ _ Hle Hmark).
Qed.

(** What is read from a swept store. *)
Lemma swept_read_value now now' (st st1 : Storage) key :
  now <= now' ->
  (forall key, st1 !! key = if sweep_marks now st key then None else st !! key) ->
  read_value now' (st1 !! key) = read_value now' (st !! key).
Proof.
  intros Hle Hlook. rewrite Hlook.
  destruct (sweep_marks now st key) eqn:Hmark; [| done].
  by rewrite (sweep_marks_null _ _ _ _ Hle Hmark).
Qed.

(** X3: the sweep is invisible to readers.  Whatever [loadFromCache]
    returns at the time of the sweep or later, it returns the same after
    the sweep. *)
Theorem clearExpiredCaches_preserves_reads now now' org type (st : Storage) :
  now <= now' ->
  exists st1 v st2 st2',
    clearExpiredCaches now st = (Ok tt, st1) /\
    loadFromCache now' org type st = (Ok v, st2) /\
    loadFromCache now' org type st1 = (Ok v, st2').
Proof.
  intros Hle.
  destruct (CacheFacts.clearExpiredCaches_spec now st) as (st1 & Hrun & Hlook).
  exists st1. rewrite !loadFromCache_run. eexists _, _, _.
  split; [exact Hrun |]. split; [reflexivity |].
  apply (f_equal2 pair); [| reflexivity]. f_equal.
  by apply (swept_read_value now).
Qed.

(** X4: the sweep is idempotent: a second sweep at the same time finds
    nothing to remove. *)
Theorem clearExpiredCaches_idempotent now (st : Storage) :
  exists st1,
    clearExpiredCaches now st = (Ok tt, st1) /\
    clearExpiredCaches now st1 = (Ok tt, st1).
Proof.
  destruct (CacheFacts.clearExpiredCaches_spec now st) as (st1 & Hrun & Hlook).
  destruct (CacheFacts.clearExpiredCaches_spec now st1) as (st2 & Hrun2 & Hlook2).
  exists st1. split; [exact Hrun |]. rewrite Hrun2. f_equal.
  apply map_eq. intros key. rewrite Hlook2.
  destruct (sweep_marks now st1 key) eqn:Hmark; [| done].
  rewrite Hlook. destruct (sweep_marks now st key) eqn:Hmark0; [done |].
  exfalso. unfold sweep_marks in Hmark, Hmark0. rewrite Hlook in Hmark.
  unfold sweep_marks in Hmark. rewrite Hmark0 in Hmark. simpl in Hmark.
  unfold sweep_marks in Hmark0. congruence.
Qed.

(** *** Writes and other keys *)

(** X5: a write never changes what a read of another key returns, whether
    the write is stored, dropped, or answered by a sweep of the store. *)
Theorem saveToCache_preserves_other_reads
    now now' org type data ttlHours org2 type2 (st : Storage) :
  getCacheKey org2 type2 ≠ getCacheKey org type ->
  now <= now' ->
  exists st1 v st2 st2',
    saveToCache now org type data ttlHours st = (Ok tt, st1) /\
    loadFromCache now' org2 type2 st = (Ok v, st2) /\
    loadFromCache now' org2 type2 st1 = (Ok v, st2').
Proof.
  intros Hkey Hle.
  destruct (JSON_stringify (cacheObject data now ttlHours)) as [text|] eqn:Hstr.
  - destruct (storage_fits st (getCacheKey org type) text) eqn:Hfits.
    + rewrite (CacheFacts.saveToCache_stored _ _ _ _ _ _ _ Hstr Hfits).
      eexists _, _, _, _. split; [reflexivity |].
      rewrite !loadFromCache_run. split; [reflexivity |].
      apply (f_equal2 pair); [| reflexivity].
      by rewrite lookup_insert_ne.
    + rewrite (CacheFacts.saveToCache_quota_exceeded _ _ _ _ _ _ _ Hstr Hfits).
      destruct (CacheFacts.clearExpiredCaches_spec now st)
        as (st1 & Hrun & Hlook).
      exists st1. rewrite !loadFromCache_run. eexists _, _, _.
      split; [exact Hrun |]. split; [reflexivity |].
      apply (f_equal2 pair); [| reflexivity]. f_equal.
      by apply (swept_read_value now).
  - exists st. rewrite !loadFromCache_run. eexists _, _, _.
    split; [| split; reflexivity].
    unfold saveToCache, try_catch, bind, stringify. by rewrite Hstr.
Qed.

(** *** Invalidation *)

(** X6: [clearCache] removes the entry of its pair and no other; the read
    that follows is a miss. *)
Theorem clearCache_then_miss now org type (st : Storage) :
  exists st',
    clearCache org type st = (Ok tt, st') /\
    loadFromCache now org type st' = (Ok JNull, st') /\
    forall key, key ≠ getCacheKey org type -> st' !! key = st !! key.
Proof.
  exists (delete (getCacheKey org type) st). split; [reflexivity |]. split.
  - apply CacheFacts.loadFromCache_absent, lookup_delete_eq.
  - intros key Hne. by rewrite lookup_delete_ne.
Qed.

Lemma org_scan_filter org keys :
  org_scan org keys
    = filter (fun key => startsWith key (orgPrefix org)) keys.
Proof.
  induction keys as [|key keys IH]; [done |].
  cbn [org_scan]. rewrite filter_cons, IH.
  destruct (startsWith key (orgPrefix org)) eqn:Hpre.
  - assert (String.eqb key "" = false) as -> by (by destruct key).
    done.
  - by rewrite andb_false_r.
Qed.

(** The invalidation of an organisation never throws and removes exactly
    the keys under the prefix of the organisation. *)
Lemma clearOrgCaches_spec org (st : Storage) :
  exists st',
    clearOrgCaches org st = (Ok tt, st') /\
    forall key,
      st' !! key = if startsWith key (orgPrefix org) then None else st !! key.
Proof.
  unfold clearOrgCaches, try_catch, bind, storage_keys.
  destruct (CacheFacts.removeAll_spec (org_scan org (map_to_list st).*1) st)
    as (st' & Hrun & Hlook).
  rewrite Hrun. exists st'. split; [done |].
  intros key. rewrite Hlook, org_scan_filter.
  destruct (startsWith key (orgPrefix org)) eqn:Hpre.
  - destruct (st !! key) eqn:Hst.
    + rewrite decide_True; [done |].
      apply list_elem_of_filter. split; [by rewrite Hpre |].
      apply CacheFacts.storage_keys_elem. by rewrite Hst.
    + by destruct (decide _).
  - rewrite decide_False; [done |].
    intros [Hm _]%list_elem_of_filter. by rewrite Hpre in Hm.
Qed.

Lemma prefix_chars p s :
  String.prefix p s = true <-> exists r, chars s = chars p ++ r.
Proof.
  revert s. induction p as [|c p IH]; intros [|d s]; simpl.
  - split; [by exists [] | done].
  - split; [intros _; by exists (d :: chars s) | done].
  - split; [done | by intros [r Hr]].
  - destruct (Ascii.ascii_dec c d) as [-> | Hne].
    + rewrite IH. split; intros [r Hr]; exists r; [by rewrite Hr | by simplify_eq].
    + split; [done | intros [r Hr]; by simplify_eq].
Qed.

Lemma getCacheKey_orgPrefix org type :
  chars (getCacheKey org type) = chars (orgPrefix org) ++ chars type.
Proof.
  unfold getCacheKey, orgPrefix. rewrite !CacheKeys.chars_app.
  by rewrite <- !(assoc_L (++)).
Qed.

(** X7: after [clearOrgCaches org], which never throws, every read for
    that organisation is a miss, whatever the report type and the time;
    entries whose key does not start with the prefix of the organisation
    are untouched. *)
Theorem clearOrgCaches_then_miss org (st : Storage) :
  exists st',
    clearOrgCaches org st = (Ok tt, st') /\
    (forall now type, loadFromCache now org type st' = (Ok JNull, st')) /\
    (forall key,
        startsWith key (orgPrefix org) = false -> st' !! key = st !! key).
Proof.
  destruct (clearOrgCaches_spec org st) as (st' & Hrun & Hlook).
  exists st'. split; [exact Hrun |]. split.
  - intros now type. apply CacheFacts.loadFromCache_absent.
    rewrite Hlook.
    assert (startsWith (getCacheKey org type) (orgPrefix org) = true) as ->;
      [| done].
    apply prefix_chars. exists (chars type). apply getCacheKey_orgPrefix.
  - intros key Hpre. by rewrite Hlook, Hpre.
Qed.

(** X8: how far [clearOrgCaches org] reaches.  The entries of another
    organisation stay when neither name contains a hyphen; the entries of
    an organisation whose name is [org], a hyphen and more, are removed
    with those of [org]. *)
Theorem clearOrgCaches_reach org (st : Storage) :
  exists st',
    clearOrgCaches org st = (Ok tt, st') /\
    (forall org' type',
        hyphen_free org -> hyphen_free org' -> org' ≠ org ->
        st' !! getCacheKey org' type' = st !! getCacheKey org' type') /\
    (forall more type',
        st' !! getCacheKey (org +:+ "-" +:+ more) type' = None).
Proof.
  destruct (clearOrgCaches_spec org st) as (st' & Hrun & Hlook).
  exists st'. split; [exact Hrun |]. split.
  - intros org' type' Hfree Hfree' Hne. rewrite Hlook.
    destruct (startsWith (getCacheKey org' type') (orgPrefix org)) eqn:Hpre;
      [| done].
    exfalso. apply Hne. apply prefix_chars in Hpre as [r Hr].
    unfold getCacheKey, orgPrefix in Hr.
    rewrite !CacheKeys.chars_app in Hr. simpl in Hr.
    rewrite <- !(assoc_L (++)) in Hr. simplify_eq/=.
    match goal with
    | Heq : chars org' ++ _ = chars org ++ _ |- _ =>
        apply (CacheKeys.split_first_sep hyphen) in Heq as [Horg _]; [| done..]
    end.
    by apply CacheKeys.chars_inj.
  - intros more type'. rewrite Hlook.
    assert (startsWith (getCacheKey (org +:+ "-" +:+ more) type') (orgPrefix org)
            = true) as ->; [| done].
    apply prefix_chars. exists (chars more ++ hyphen :: chars type').
    unfold getCacheKey, orgPrefix. rewrite !CacheKeys.chars_app. simpl.
    by rewrite <- !(assoc_L (++)).
Qed.

End WithPlatform.
End CacheLaws.

(* ===================================================================== *)
(** ** Pagination in the remote client *)
(* ===================================================================== *)

Module PaginationFacts.
Import JS GitHubApi.
Import GitHubClient PaginationSpec.

Lemma lengthIs_array items n :
  lengthIs (JArr items) n = Ok (Z.of_nat (length items) =? n).
Proof. reflexivity. Qed.

(** The loop over a run of full pages followed by a short one. *)
Lemma pagesStrict_full_then_short pages last fetchPage :
  Forall (fun p => length p = 100%nat) pages ->
  length last ≠ 100%nat ->
  forall fuel page all,
    (forall i p, pages !! i = Some p ->
       fetchPage (page + Z.of_nat i) = Ok (JArr p)) ->
    fetchPage (page + Z.of_nat (length pages)) = Ok (JArr last) ->
    (length pages < fuel)%nat ->
    pagesStrict fuel fetchPage page all
      = Some (Ok (all ++ List.concat pages ++ last)).
Proof.
  intros Hfull Hshort.
  induction Hfull as [|p pages Hp _ IH]; intros fuel page all Hpages Hlast Hfuel.
  - destruct fuel as [|fuel]; [simpl in Hfuel; lia |].
    simpl in *. rewrite Z.add_0_r in Hlast. rewrite Hlast. simpl.
    destruct (Z.eqb_spec (Z.of_nat (length last)) 100) as [Heq | _]; [lia | done].
  - destruct fuel as [|fuel]; [simpl in Hfuel; lia |].
    cbn [pagesStrict].
    pose proof (Hpages 0%nat p eq_refl) as H0. rewrite Z.add_0_r in H0.
    rewrite H0. rewrite lengthIs_array, Hp. simpl.
    rewrite (IH fuel (page + 1) (all ++ p)).
    + by rewrite <- !(assoc_L (++)).
    + intros i q Hq. rewrite <- (Hpages (S i) q Hq). f_equal. lia.
    + rewrite <- Hlast. f_equal. simpl. lia.
    + simpl in Hfuel. lia.
Qed.

(** The loop over a run of full pages followed by a failing request. *)
Lemma pagesStrict_full_then_error pages e fetchPage :
  Forall (fun p => length p = 100%nat) pages ->
  forall fuel page all,
    (forall i p, pages !! i = Some p ->
       fetchPage (page + Z.of_nat i) = Ok (JArr p)) ->
    fetchPage (page + Z.of_nat (length pages)) = Throw e ->
    (length pages < fuel)%nat ->
    pagesStrict fuel fetchPage page all = Some (Throw e).
Proof.
  intros Hfull.
  induction Hfull as [|p pages Hp _ IH]; intros fuel page all Hpages Hlast Hfuel.
  - destruct fuel as [|fuel]; [simpl in Hfuel; lia |].
    simpl in *. rewrite Z.add_0_r in Hlast. by rewrite Hlast.
  - destruct fuel as [|fuel]; [simpl in Hfuel; lia |].
    cbn [pagesStrict].
    pose proof (Hpages 0%nat p eq_refl) as H0. rewrite Z.add_0_r in H0.
    rewrite H0. rewrite lengthIs_array, Hp. simpl.
    apply (IH fuel (page + 1) (all ++ p)).
    + intros i q Hq. rewrite <- (Hpages (S i) q Hq). f_equal. lia.
    + rewrite <- Hlast. f_equal. simpl. lia.
    + simpl in Hfuel. lia.
Qed.

Lemma pagesLenient_full_then_short pages last fetchPage :
  Forall (fun p => length p = 100%nat) pages ->
  length last ≠ 100%nat ->
  forall fuel page all,
    (forall i p, pages !! i = Some p ->
       fetchPage (page + Z.of_nat i) = Ok (JArr p)) ->
    fetchPage (page + Z.of_nat (length pages)) = Ok (JArr last) ->
    (length pages < fuel)%nat ->
    pagesLenient fuel fetchPage page all
      = Some (all ++ List.concat pages ++ last).
Proof.
  intros Hfull Hshort.
  induction Hfull as [|p pages Hp _ IH]; intros fuel page all Hpages Hlast Hfuel.
  - destruct fuel as [|fuel]; [simpl in Hfuel; lia |].
    simpl in *. rewrite Z.add_0_r in Hlast. rewrite Hlast. simpl.
    destruct (Z.eqb_spec (Z.of_nat (length last)) 100) as [Heq | _]; [lia | done].
  - destruct fuel as [|fuel]; [simpl in Hfuel; lia |].
    cbn [pagesLenient].
    pose proof (Hpages 0%nat p eq_refl) as H0. rewrite Z.add_0_r in H0.
    rewrite H0. rewrite lengthIs_array, Hp. simpl.
    rewrite (IH fuel (page + 1) (all ++ p)).
    + by rewrite <- !(assoc_L (++)).
    + intros i q Hq. rewrite <- (Hpages (S i) q Hq). f_equal. lia.
    + rewrite <- Hlast. f_equal. simpl. lia.
    + simpl in Hfuel. lia.
Qed.

Lemma pagesLenient_full_then_error pages e fetchPage :
  Forall (fun p => length p = 100%nat) pages ->
  forall fuel page all,
    (forall i p, pages !! i = Some p ->
       fetchPage (page + Z.of_nat i) = Ok (JArr p)) ->
    fetchPage (page + Z.of_nat (length pages)) = Throw e ->
    (length pages < fuel)%nat ->
    pagesLenient fuel fetchPage page all = Some (all ++ List.concat pages).
Proof.
  intros Hfull.
  induction Hfull as [|p pages Hp _ IH]; intros fuel page all Hpages Hlast Hfuel.
  - destruct fuel as [|fuel]; [simpl in Hfuel; lia |].
    simpl in *. rewrite Z.add_0_r in Hlast. rewrite Hlast.
    by rewrite app_nil_r.
  - destruct fuel as [|fuel]; [simpl in Hfuel; lia |].
    cbn [pagesLenient].
    pose proof (Hpages 0%nat p eq_refl) as H0. rewrite Z.add_0_r in H0.
    rewrite H0. rewrite lengthIs_array, Hp. simpl.
    rewrite (IH fuel (page + 1) (all ++ p)).
    + by rewrite <- !(assoc_L (++)).
    + intros i q Hq. rewrite <- (Hpages (S i) q Hq). f_equal. lia.
    + rewrite <- Hlast. f_equal. simpl. lia.
    + simpl in Hfuel. lia.
Qed.

(** X9: [getOrgRepositories] pages through the collection.  When the
    server answers with full pages of 100 and then a shorter one, the
    result is all pages, concatenated in order, and the loop ends after
    the short page: [length pages + 1] iterations suffice. *)
Theorem getOrgRepositories_concatenates_pages net org pages last fuel :
  Forall (fun p => length p = 100%nat) pages ->
  length last ≠ 100%nat ->
  (forall i p, pages !! i = Some p -> reposPage net org i = Ok (JArr p)) ->
  reposPage net org (length pages) = Ok (JArr last) ->
  (length pages < fuel)%nat ->
  getOrgRepositories fuel net org = Some (Ok (List.concat pages ++ last)).
Proof.
  intros Hfull Hshort Hpages Hlast Hfuel. unfold getOrgRepositories.
  by rewrite (pagesStrict_full_then_short pages last).
Qed.

(** X10: [getOrgRepositories] lets a failure propagate: when a request
    fails after any number of full pages, the error of that request is
    thrown and the pages fetched so far are not returned. *)
Theorem getOrgRepositories_propagates_failure net org pages e fuel :
  Forall (fun p => length p = 100%nat) pages ->
  (forall i p, pages !! i = Some p -> reposPage net org i = Ok (JArr p)) ->
  reposPage net org (length pages) = Throw e ->
  (length pages < fuel)%nat ->
  getOrgRepositories fuel net org = Some (Throw e).
Proof.
  intros Hfull Hpages Hlast Hfuel. unfold getOrgRepositories.
  by apply (pagesStrict_full_then_error pages e).
Qed.

(** X11: [getRepoBranches] never throws.  It returns all pages when full
    pages are followed by a shorter one, and the full pages fetched so far
    when the next request fails. *)
Theorem getRepoBranches_pages_or_partial net owner repo pages fuel :
  Forall (fun p => length p = 100%nat) pages ->
  (forall i p, pages !! i = Some p -> branchesPage net owner repo i = Ok (JArr p)) ->
  (length pages < fuel)%nat ->
  (forall last,
      length last ≠ 100%nat ->
      branchesPage net owner repo (length pages) = Ok (JArr last) ->
      getRepoBranches fuel net owner repo = Some (List.concat pages ++ last)) /\
  (forall e,
      branchesPage net owner repo (length pages) = Throw e ->
      getRepoBranches fuel net owner repo = Some (List.concat pages)).
Proof.
  intros Hfull Hpages Hfuel. unfold getRepoBranches. split.
  - intros last Hshort Hlast.
    by rewrite (pagesLenient_full_then_short pages last).
  - intros e Hlast.
    by rewrite (pagesLenient_full_then_error pages e).
Qed.

End PaginationFacts.

(* ===================================================================== *)
(** ** The classification of repositories *)
(* ===================================================================== *)

Module ClassifyFacts.
Import JS Builders.
Import ClassifySpec.

(** *** Alert counts *)

Lemma countAlert_counts c alerts :
  Security.count_critical (foldl Security.countAlert c alerts)
    = Security.count_critical c + alertsOf "critical" alerts /\
  Security.count_high (foldl Security.countAlert c alerts)
    = Security.count_high c + alertsOf "high" alerts /\
  Security.count_medium (foldl Security.countAlert c alerts)
    = Security.count_medium c + alertsOf "medium" alerts /\
  Security.count_low (foldl Security.countAlert c alerts)
    = Security.count_low c + alertsOf "low" alerts.
Proof.
  revert c. induction alerts as [|alert alerts IH]; intros c.
  - unfold alertsOf. simpl. lia.
  - cbn [foldl]. destruct (IH (Security.countAlert c alert)) as (Hc & Hh & Hm & Hl).
    rewrite Hc, Hh, Hm, Hl. unfold alertsOf. rewrite !filter_cons.
    unfold Security.countAlert.
    destruct (String.eqb_spec (Security.severity alert) "critical") as [-> | ?];
      [repeat (rewrite decide_True by done || rewrite decide_False by done);
       simpl; lia |].
    destruct (String.eqb_spec (Security.severity alert) "high") as [-> | ?];
      [repeat (rewrite decide_True by done || rewrite decide_False by done);
       simpl; lia |].
    destruct (String.eqb_spec (Security.severity alert) "medium") as [-> | ?];
      [repeat (rewrite decide_True by done || rewrite decide_False by done);
       simpl; lia |].
    destruct (String.eqb_spec (Security.severity alert) "low") as [-> | ?];
      [repeat (rewrite decide_True by done || rewrite decide_False by done);
       simpl; lia |].
    rewrite !decide_False by done. simpl. lia.
Qed.

Lemma alertsOf_disjoint alerts :
  alertsOf "critical" alerts + alertsOf "high" alerts
    + alertsOf "medium" alerts + alertsOf "low" alerts
  <= Z.of_nat (length alerts).
Proof.
  unfold alertsOf. induction alerts as [|alert alerts IH]; [simpl; lia |].
  rewrite !filter_cons.
  destruct (decide (Security.severity alert = "critical")) as [Heq | ?];
    [rewrite Heq; rewrite !decide_False by done; simpl in *; lia |].
  destruct (decide (Security.severity alert = "high")) as [Heq | ?];
    [rewrite Heq; rewrite !decide_False by done; simpl in *; lia |].
  destruct (decide (Security.severity alert = "medium")) as [Heq | ?];
    [rewrite Heq; rewrite !decide_False by done; simpl in *; lia |].
  destruct (decide (Security.severity alert = "low")) as [Heq | ?];
    simpl in *; lia.
Qed.

(** X12: the row of a repository counts its alerts by severity.  Each of
    the four counters is the number of alerts of that severity, the total
    is the number of all alerts, and the four counters never add up to more
    than the total; an alert of another severity is in the total only. *)
Theorem alertRow_counts_by_severity repo alerts :
  Security.critical (Security.alertRow repo alerts) = alertsOf "critical" alerts /\
  Security.high (Security.alertRow repo alerts) = alertsOf "high" alerts /\
  Security.medium (Security.alertRow repo alerts) = alertsOf "medium" alerts /\
  Security.low (Security.alertRow repo alerts) = alertsOf "low" alerts /\
  Security.totalAlerts (Security.alertRow repo alerts) = Z.of_nat (length alerts) /\
  Security.critical (Security.alertRow repo alerts)
    + Security.high (Security.alertRow repo alerts)
    + Security.medium (Security.alertRow repo alerts)
    + Security.low (Security.alertRow repo alerts)
  <= Security.totalAlerts (Security.alertRow repo alerts).
Proof.
  unfold Security.alertRow, Security.severityCounts. simpl.
  match goal with
  | |- context [foldl Security.countAlert ?c alerts] =>
      destruct (countAlert_counts c alerts) as (Hc & Hh & Hm & Hl)
  end.
  rewrite Hc, Hh, Hm, Hl. simpl.
  pose proof (alertsOf_disjoint alerts). repeat split; lia.
Qed.

(** *** Unprotected default branches and missing admins *)




(** *** Dependabot *)

Lemma Security_checkRepo_rows api orgName rs acc :
  (foldl (Security.checkRepo api orgName) acc rs).1
  = acc.1 ++ ((fun r => Security.alertRow r (openAlerts api orgName r))
                <$> filter (fun r => hasOpenAlerts api orgName r) rs) /\
  Security.disabled_name <$> (foldl (Security.checkRepo api orgName) acc rs).2
  = (Security.disabled_name <$> acc.2)
      ++ (name <$> filter (fun r => dependabotOn api orgName r = false) rs).
Proof.
  revert acc. induction rs as [|r rs IH]; intros acc.
  - simpl. by rewrite !app_nil_r.
  - cbn [foldl]. destruct (IH (Security.checkRepo api orgName acc r)) as [-> ->].
    rewrite !filter_cons.
    assert (Hstep : Security.checkRepo api orgName acc r
                    = if dependabotOn api orgName r
                      then match openAlerts api orgName r with
                           | [] => acc
                           | _ => (acc.1 ++ [Security.alertRow r
                                               (openAlerts api orgName r)],
                                   acc.2)
                           end
                      else (acc.1,
                            acc.2 ++ [ {| Security.disabled_name := name r;
                                          Security.disabled_url := html_url r;
                                          Security.disabled_settingsUrl :=
                                            html_url r +:+ "/security_analysis";
                                          Security.disabled_visibility :=
                                            Security.visibility r |} ])).
    { unfold Security.checkRepo, Security.catch, dependabotOn, openAlerts.
      destruct (Security.isDependabotEnabled api orgName (name r)) as [[|]|];
        cbn [negb]; try reflexivity;
        by destruct (Security.getDependabotAlerts api orgName (name r)) as [[|]|]. }
    rewrite Hstep. clear Hstep.
    destruct (decide (hasOpenAlerts api orgName r)) as [[Hon Hne] | Hno];
      destruct (decide (dependabotOn api orgName r = false)) as [Hoff | Hon'].
    + congruence.
    + rewrite Hon. rewrite fmap_cons.
      destruct (openAlerts api orgName r) eqn:Halerts; [done |].
      cbn [fst snd]. split; [by rewrite <- (assoc_L (++)) | done].
    + rewrite Hoff. simpl. rewrite fmap_app. simpl.
      split; [done | by rewrite <- (assoc_L (++))].
    + destruct (dependabotOn api orgName r) eqn:Hon; [| done].
      destruct (openAlerts api orgName r) eqn:Halerts; [done |].
      exfalso. apply Hno. unfold hasOpenAlerts. rewrite Hon, Halerts. done.
Qed.

(** X14: the security builder lists a repository as disabled exactly when
    the Dependabot probe answers [false] (a failing probe counts as
    enabled), and lists it with alerts, as a rearrangement of the rows in
    iteration order, exactly when Dependabot counts as enabled and an open
    alert is returned (a failing request for the alerts counts as none),
    so never when it is listed as disabled. *)
Theorem Security_build_classification api orgName repos :
  let active := Security.activeRepos repos in
  let report := Security.build api orgName repos in
  Security.disabled_name <$> Security.dependabotDisabledRepos report
    = name <$> filter (fun r => dependabotOn api orgName r = false) active /\
  Security.reposWithAlerts report
    ≡ₚ (fun r => Security.alertRow r (openAlerts api orgName r))
         <$> filter (fun r => hasOpenAlerts api orgName r) active.
Proof.
  intros active report.
  destruct (Security_checkRepo_rows api orgName active ([], [])) as [Hrows Hdis].
  unfold report, Security.build. simpl. fold active.
  split; [exact Hdis |].
  rewrite ArrayFacts.sort_Permutation. by rewrite Hrows.
Qed.

End ClassifyFacts.

(* =================================================================== *)
(** ** Contents of the clean-up report *)
(* =================================================================== *)

Module ContentsFacts.
Import JS JSArray Builders Builders.CleanupNeeded.
Import ArraySpec CleanupSpec ContentsSpec.

(** *** One run of the loop *)

Lemma processRepo_run api cfg orgName acc repo log :
  processRepo api cfg orgName acc repo log
  = ({| reposWithActivity :=
          reposWithActivity acc ++ inactiveRowsOf api cfg orgName repo;
        reposWithStaleBranches :=
          reposWithStaleBranches acc ++ staleRowsOf api cfg orgName repo;
        reposWithOldPRs :=
          reposWithOldPRs acc ++ oldPRRowsOf api cfg orgName repo |},
     log ++ requestsOf api cfg orgName repo).
Proof.
  unfold processRepo, bind, request.
  rewrite (CleanupFacts.staleBranchStep_appends api cfg orgName repo _ _).
  unfold ret. apply (f_equal2 pair); [reflexivity |].
  unfold requestsOf, detailRequestsOf.
  by rewrite <- !(assoc_L (++)).
Qed.

Lemma for_of_processRepo_run api cfg orgName rs acc log :
  for_of (processRepo api cfg orgName) rs acc log
  = ({| reposWithActivity :=
          reposWithActivity acc ++ concat (inactiveRowsOf api cfg orgName <$> rs);
        reposWithStaleBranches :=
          reposWithStaleBranches acc ++ concat (staleRowsOf api cfg orgName <$> rs);
        reposWithOldPRs :=
          reposWithOldPRs acc ++ concat (oldPRRowsOf api cfg orgName <$> rs) |},
     log ++ concat (requestsOf api cfg orgName <$> rs)).
Proof.
  revert acc log. induction rs as [|repo rs IH]; intros acc log.
  - destruct acc. simpl. unfold ret. by rewrite !app_nil_r.
  - cbn [for_of]. unfold bind. rewrite processRepo_run, IH. simpl.
    by rewrite <- !(assoc_L (++)).
Qed.

Lemma build_run api cfg orgName repos log :
  build api cfg orgName repos log
  = (finish
       {| reposWithActivity :=
            concat (inactiveRowsOf api cfg orgName <$> activeRepos repos);
          reposWithStaleBranches :=
            concat (staleRowsOf api cfg orgName <$> activeRepos repos);
          reposWithOldPRs :=
            concat (oldPRRowsOf api cfg orgName <$> activeRepos repos) |},
     log ++ concat (requestsOf api cfg orgName <$> activeRepos repos)).
Proof. unfold build, bind. by rewrite for_of_processRepo_run. Qed.

(** *** Archive candidates *)

Lemma inactiveStep_spec cfg repo lastPR :
  inactive_name <$> inactiveStep cfg repo lastPR
  = (if decide (latestActivity repo lastPR < inactiveCutoffDate cfg)
     then [name repo] else []) /\
  Forall (fun row =>
            inactive_name row = name repo /\
            lastCommitDate row = pushed_at repo /\
            lastActivity row = latestActivity repo lastPR /\
            daysInactive row = days (now cfg - lastActivity row) /\
            (isLastActivityPR row = true <->
               exists pr, lastPR = Some pr /\ pushed_at repo < updated_at pr))
    (inactiveStep cfg repo lastPR).
Proof.
  assert (Hlatest : latestActivity repo lastPR
                    = match updated_at <$> lastPR with
                      | Some d => if pushed_at repo <? d then d else pushed_at repo
                      | None => pushed_at repo
                      end).
  { destruct lastPR as [pr|]; simpl; [| done].
    destruct (Z.ltb_spec (pushed_at repo) (updated_at pr)); lia. }
  unfold inactiveStep. rewrite <- Hlatest.
  destruct (Z.ltb_spec (latestActivity repo lastPR) (inactiveCutoffDate cfg))
    as [Hlt | Hge].
  - rewrite decide_True by done. split; [done |].
    repeat constructor; simpl.
    + destruct lastPR as [pr|]; simpl; [| done].
      intros Hlater%Z.ltb_lt. by exists pr.
    + intros (pr & -> & Hlater). simpl. by apply Z.ltb_lt.
  - rewrite decide_False by lia. split; [done | constructor].
Qed.

Lemma inactive_names api cfg orgName rs :
  inactive_name <$> concat (inactiveRowsOf api cfg orgName <$> rs)
  = name <$> filter (fun r => latestActivityOf api orgName r
                               < inactiveCutoffDate cfg) rs.
Proof.
  induction rs as [|r rs IH]; [done |].
  rewrite fmap_cons, concat_cons, fmap_app, IH, filter_cons.
  unfold inactiveRowsOf at 1.
  rewrite (proj1 (inactiveStep_spec cfg r _)).
  unfold latestActivityOf at 2.
  by destruct (decide _).
Qed.

(** X15: the archive candidates of the clean-up report are exactly the
    active repositories whose latest activity (the later of the last push
    and the last update of a pull request) lies before the cutoff.  Every
    row belongs to such a repository, carries that latest activity, and
    counts the whole days from it to the clock reading. *)
Theorem inactive_repositories_listed api cfg orgName repos :
  let active := activeRepos repos in
  let inactive :=
    filter (fun r => latestActivityOf api orgName r < inactiveCutoffDate cfg)
      active in
  let report := value_of (build api cfg orgName repos) in
  inactive_name <$> inactiveRepos report ≡ₚ name <$> inactive /\
  totalInactive report = Z.of_nat (length inactive) /\
  Forall (fun row =>
            exists repo,
              repo ∈ inactive /\
              inactive_name row = name repo /\
              lastCommitDate row = pushed_at repo /\
              lastActivity row = latestActivityOf api orgName repo /\
              daysInactive row = days (now cfg - lastActivity row))
    (inactiveRepos report).
Proof.
  intros active inactive report.
  unfold report, value_of. rewrite build_run. cbn [fst finish inactiveRepos
    totalInactive reposWithActivity].
  fold active.
  assert (Hperm : sort compareInactive
                    (concat (inactiveRowsOf api cfg orgName <$> active))
                  ≡ₚ concat (inactiveRowsOf api cfg orgName <$> active))
    by apply ArrayFacts.sort_Permutation.
  split; [| split].
  - rewrite Hperm. by rewrite inactive_names.
  - rewrite Hperm. unfold inactive.
    rewrite <- (length_fmap name), <- inactive_names. by rewrite length_fmap.
  - rewrite Hperm. apply Forall_concat, Forall_fmap, Forall_forall.
    intros repo Hrepo. simpl.
    destruct (inactiveStep_spec cfg repo
                (getLastPullRequest api orgName (name repo))) as [Hnames Hrows].
    unfold inactiveRowsOf.
    destruct (decide (latestActivity repo
                        (getLastPullRequest api orgName (name repo))
                      < inactiveCutoffDate cfg)) as [Hlt | Hge].
    + eapply Forall_impl; [exact Hrows |].
      intros row (Hname & Hpushed & Hlatest & Hdays & _). exists repo.
      repeat split; try done.
      apply list_elem_of_filter. by split.
    + apply fmap_nil_inv in Hnames. rewrite Hnames. constructor.
Qed.

(** *** Old pull requests *)

Lemma checkPR_step cfg acc pr :
  checkPR cfg acc pr
  = if decide (created_at pr < prCutoffDate cfg)
    then (acc.1 + 1,
          if daysOpen acc.2 <? age cfg pr then oldestIs cfg pr else acc.2)
    else acc.
Proof.
  unfold checkPR, age, oldestIs.
  destruct (Z.ltb_spec (created_at pr) (prCutoffDate cfg)).
  - by rewrite decide_True.
  - by rewrite decide_False by lia.
Qed.

Lemma checkPR_fold cfg prs acc :
  let result := foldl (checkPR cfg) acc prs in
  result.1 = acc.1 + Z.of_nat (length (oldPullRequests cfg prs)) /\
  daysOpen acc.2 <= daysOpen result.2 /\
  (forall pr, pr ∈ oldPullRequests cfg prs -> age cfg pr <= daysOpen result.2) /\
  (result.2 = acc.2 \/
   exists pr, pr ∈ oldPullRequests cfg prs /\ result.2 = oldestIs cfg pr).
Proof.
  revert acc. induction prs as [|pr prs IH]; intros acc; cbn zeta.
  - simpl. repeat split; [lia | lia | by intros ? ?%elem_of_nil | by left].
  - cbn [foldl].
    destruct (IH (checkPR cfg acc pr)) as (Hcount & Hmono & Hbound & Hwho).
    unfold oldPullRequests in *. rewrite filter_cons.
    rewrite Hcount. clear Hcount.
    rewrite checkPR_step in Hmono, Hbound, Hwho |- *.
    destruct (decide (created_at pr < prCutoffDate cfg)) as [Hold | Hnew];
      [| repeat split; done].
    cbn [fst snd] in *.
    destruct (Z.ltb_spec (daysOpen acc.2) (age cfg pr)) as [Hlt | Hge].
    + simpl in Hmono. repeat split.
      * simpl. lia.
      * lia.
      * intros pr' [-> | Hin]%elem_of_cons; [lia | by apply Hbound].
      * right. destruct Hwho as [-> | (pr' & Hin & ->)].
        -- exists pr. split; [apply elem_of_cons; by left | done].
        -- exists pr'. split; [apply elem_of_cons; by right | done].
    + repeat split.
      * simpl. lia.
      * lia.
      * intros pr' [-> | Hin]%elem_of_cons; [lia | by apply Hbound].
      * destruct Hwho as [-> | (pr' & Hin & ->)]; [by left |].
        right. exists pr'. split; [apply elem_of_cons; by right | done].
Qed.

Lemma oldPRStep_spec cfg repo openPRs :
  exists oldest,
    oldPRStep cfg repo openPRs
    = (if decide (0 < length (oldPullRequests cfg openPRs))%nat
       then [ {| pr_repoName := name repo;
                 pr_repoUrl := html_url repo;
                 oldPRCount := Z.of_nat (length (oldPullRequests cfg openPRs));
                 totalPRs := Z.of_nat (length openPRs);
                 oldestPR := oldest |} ]
       else []) /\
    0 <= daysOpen oldest /\
    (forall pr, pr ∈ oldPullRequests cfg openPRs -> age cfg pr <= daysOpen oldest) /\
    (oldest = noOldest \/
     exists pr, pr ∈ oldPullRequests cfg openPRs /\ oldest = oldestIs cfg pr).
Proof.
  destruct (checkPR_fold cfg openPRs (0, noOldest))
    as (Hcount & Hmono & Hbound & Hwho).
  cbn zeta in *. cbn [fst snd] in Hcount, Hmono, Hwho.
  exists (foldl (checkPR cfg) (0, noOldest) openPRs).2.
  split; [| by repeat split].
  unfold oldPRStep. fold noOldest. rewrite Hcount.
  destruct (Z.ltb_spec 0 (0 + Z.of_nat (length (oldPullRequests cfg openPRs)))).
  - rewrite decide_True by lia. do 2 f_equal; lia.
  - by rewrite decide_False by lia.
Qed.


Lemma foldl_add_Permutation {A} (f : A -> Z) l l' :
  l ≡ₚ l' ->
  forall z, foldl (fun sum x => sum + f x) z l = foldl (fun sum x => sum + f x) z l'.
Proof.
  induction 1 as [| x l l' _ IH | x y l | l l' l'' _ IH1 _ IH2]; intros z; simpl.
  - done.
  - apply IH.
  - f_equal. lia.
  - by rewrite IH1, IH2.
Qed.

Lemma oldPR_counts api cfg orgName rs z :
  foldl (fun sum row => sum + oldPRCount row) z
    (concat (oldPRRowsOf api cfg orgName <$> rs))
  = z + Z.of_nat (length (concat (oldPullRequestsOf api cfg orgName <$> rs))).
Proof.
  revert z. induction rs as [|r rs IH]; intros z; [simpl; lia |].
  rewrite !fmap_cons, !concat_cons, foldl_app, IH, length_app.
  unfold oldPRRowsOf at 1.
  destruct (oldPRStep_spec cfg r (getOpenPullRequests api orgName (name r)))
    as (oldest & -> & _).
  fold (oldPullRequestsOf api cfg orgName r).
  destruct (decide _); simpl; lia.
Qed.

Lemma oldPR_names api cfg orgName rs :
  pr_repoName <$> concat (oldPRRowsOf api cfg orgName <$> rs)
  = name <$> filter (fun r => (0 < length (oldPullRequestsOf api cfg orgName r))%nat)
               rs.
Proof.
  induction rs as [|r rs IH]; [done |].
  rewrite fmap_cons, concat_cons, fmap_app, IH, filter_cons.
  unfold oldPRRowsOf at 1.
  destruct (oldPRStep_spec cfg r (getOpenPullRequests api orgName (name r)))
    as (oldest & -> & _).
  fold (oldPullRequestsOf api cfg orgName r).
  by destruct (decide _).
Qed.

(** X17: the old-pull-request list of the clean-up report names exactly
    the active repositories with an open pull request created before the
    cutoff, and the total [totalOldPRs] is the number of such pull
    requests over all active repositories. *)
Theorem old_pull_requests_listed api cfg orgName repos :
  let active := activeRepos repos in
  let withOld :=
    filter (fun r => (0 < length (oldPullRequestsOf api cfg orgName r))%nat)
      active in
  let report := value_of (build api cfg orgName repos) in
  pr_repoName <$> oldPRs report ≡ₚ name <$> withOld /\
  totalOldPRRepos report = Z.of_nat (length withOld) /\
  totalOldPRs report
  = Z.of_nat (length (concat (oldPullRequestsOf api cfg orgName <$> active))).
Proof.
  intros active withOld report.
  unfold report, value_of. rewrite build_run.
  cbn [fst finish oldPRs totalOldPRRepos totalOldPRs reposWithOldPRs].
  fold active.
  assert (Hperm : sort compareOldPR
                    (concat (oldPRRowsOf api cfg orgName <$> active))
                  ≡ₚ concat (oldPRRowsOf api cfg orgName <$> active))
    by apply ArrayFacts.sort_Permutation.
  split; [| split].
  - rewrite Hperm. by rewrite oldPR_names.
  - rewrite Hperm. unfold withOld.
    rewrite <- (length_fmap name), <- oldPR_names. by rewrite length_fmap.
  - rewrite (foldl_add_Permutation oldPRCount _ _ Hperm).
    rewrite oldPR_counts. lia.
Qed.

(** *** Stale branches within the threshold *)

Lemma authorOf_checkBranch cfg acc d :
  isStale cfg d = true ->
  checkBranch cfg acc d
  = (acc.1 + 1,
     match authorOf d with
     | Some a => set_add acc.2 a
     | None => acc.2
     end).
Proof.
  destruct d as [[[c|]]|]; simpl; try done.
  intros ->. unfold authorOf.
  destruct (truthy (or_else (author_login c) (Some (author_name c)))) eqn:Htruthy;
    [| done].
  by destruct (or_else (author_login c) (Some (author_name c))).
Qed.

Lemma checkBranch_fresh cfg acc d :
  isStale cfg d = false -> checkBranch cfg acc d = acc.
Proof. destruct d as [[[c|]]|]; simpl; try done. by intros ->. Qed.

Lemma set_add_spec s x :
  NoDup s -> NoDup (set_add s x) /\ forall a, a ∈ set_add s x <-> a ∈ s \/ a = x.
Proof.
  intros Hs. unfold set_add. destruct (decide (x ∈ s)) as [Hin | Hout].
  - split; [done |]. intros a. split; [by left | by intros [? | ->]].
  - split.
    + apply NoDup_app. split; [done |]. split; [| apply NoDup_singleton].
      intros a Ha ->%list_elem_of_singleton. done.
    + intros a. rewrite elem_of_app, list_elem_of_singleton. done.
Qed.

Lemma checkBranch_fold cfg ds acc :
  NoDup acc.2 ->
  let result := foldl (checkBranch cfg) acc ds in
  result.1 = acc.1 + Z.of_nat (length (staleDetails cfg ds)) /\
  NoDup result.2 /\
  forall a, a ∈ result.2 <->
            a ∈ acc.2 \/ exists d, d ∈ staleDetails cfg ds /\ authorOf d = Some a.
Proof.
  revert acc. induction ds as [|d ds IH]; intros acc Hnodup; cbn zeta.
  - simpl. split; [lia |]. split; [done |]. intros a. split; [by left |].
    intros [? | (d & ?%elem_of_nil & _)]; done.
  - cbn [foldl]. unfold staleDetails in *. rewrite filter_cons.
    destruct (isStale cfg d) eqn:Hstale.
    + rewrite decide_True by done.
      rewrite (authorOf_checkBranch cfg acc d Hstale).
      match goal with
      | |- context [foldl _ ?acc' ds] =>
          destruct (IH acc') as (Hcount & Hnd & Hmem)
      end.
      { cbn [snd]. destruct (authorOf d); [by apply set_add_spec | done]. }
      cbn [fst snd] in *. split; [rewrite Hcount; simpl; lia |].
      split; [done |]. intros a. rewrite Hmem. clear Hmem Hcount Hnd.
      split.
      * intros [Hin | (d' & Hd' & Hauthor)].
        -- destruct (authorOf d) as [x|] eqn:Hx; [| by left].
           apply (set_add_spec acc.2 x Hnodup) in Hin as [? | ->]; [by left |].
           right. exists d. split; [apply elem_of_cons; by left | done].
        -- right. exists d'. split; [apply elem_of_cons; by right | done].
      * intros [Hin | (d' & [-> | Hd']%elem_of_cons & Hauthor)].
        -- left. destruct (authorOf d) as [x|]; [| done].
           apply (set_add_spec acc.2 x Hnodup). by left.
        -- left. rewrite Hauthor. apply (set_add_spec acc.2 a Hnodup). by right.
        -- right. by exists d'.
    + rewrite decide_False by done.
      rewrite (checkBranch_fresh cfg acc d Hstale). by apply IH.
Qed.

Lemma staleBranchStep_value api cfg orgName repo branches :
  Z.of_nat (length (nonDefaultBranches repo branches))
    <= branchWarningThreshold cfg ->
  value_of (staleBranchStep api cfg orgName repo branches)
  = let result :=
      foldl (checkBranch cfg) (0, []) (branchDetailsOf api orgName repo branches) in
    if 0 <? result.1
    then [ DetailRow (name repo) (html_url repo) result.1
             (Z.of_nat (length (nonDefaultBranches repo branches))) result.2 ]
    else [].
Proof.
  intros Hwithin. unfold staleBranchStep.
  rewrite (proj2 (Z.ltb_ge _ _) Hwithin).
  destruct (CleanupFacts.all_request_appends
              (fun branch =>
                 CallBranchDetails orgName (name repo) (branch_name branch))
              (fun branch =>
                 getBranchDetails api orgName (name repo) (branch_name branch))
              (nonDefaultBranches repo branches)) as (Ha & Hv & Hr).
  match goal with
  | |- value_of (bind ?m ?k) = _ =>
      destruct (CleanupFacts.bind_appends m k) as (_ & Hv' & _);
        [exact Ha | intros; apply CleanupFacts.appends_ret |]
  end.
  rewrite Hv', Hv. reflexivity.
Qed.

(** X18: the stale-branch check of a repository whose branches are within
    the threshold.  A row is produced exactly when a branch other than
    the default branch has a last commit dated before the cutoff; it
    counts those branches and all branches other than the default one,
    and lists without repetition the authors recorded for the stale
    branches. *)
Theorem staleBranchStep_counts_stale_branches api cfg orgName repo branches :
  let nonDefault := nonDefaultBranches repo branches in
  let stale := staleDetails cfg (branchDetailsOf api orgName repo branches) in
  Z.of_nat (length nonDefault) <= branchWarningThreshold cfg ->
  (stale = [] ->
   value_of (staleBranchStep api cfg orgName repo branches) = []) /\
  (stale ≠ [] ->
   exists authors,
     value_of (staleBranchStep api cfg orgName repo branches)
     = [ DetailRow (name repo) (html_url repo) (Z.of_nat (length stale))
           (Z.of_nat (length nonDefault)) authors ] /\
     NoDup authors /\
     forall a, a ∈ authors <-> exists d, d ∈ stale /\ authorOf d = Some a).
Proof.
  intros nonDefault stale Hwithin.
  rewrite (staleBranchStep_value api cfg orgName repo branches Hwithin).
  destruct (checkBranch_fold cfg (branchDetailsOf api orgName repo branches)
              (0, [])) as (Hcount & Hnodup & Hmem); [constructor |].
  cbn zeta in *. cbn [fst snd] in Hcount, Hmem. fold stale in Hcount, Hmem.
  rewrite Hcount. fold nonDefault. split.
  - intros ->. done.
  - intros Hsome.
    destruct (Z.ltb_spec 0 (0 + Z.of_nat (length stale))) as [_ | Hzero].
    2: { destruct stale; [done | simpl in Hzero; lia]. }
    eexists. split; [by rewrite Z.add_0_l |]. split; [done |].
    intros a. rewrite Hmem. split; [| by right].
    intros [?%elem_of_nil | ?]; done.
Qed.

(** *** Number of requests *)



End ContentsFacts.

(* =================================================================== *)
(** ** The stored settings and the cache *)
(* =================================================================== *)

Module ConfigFacts.
Import JS Cache CacheOrg Config.
Import CacheSpec CacheKeySpec ReadSpec ConfigSpec.

(** No hyphen occurs in the last word of the settings key. *)
Lemma settings_word_hyphen_free a b :
  chars a ++ hyphen :: b ≠ chars "settings".
Proof.
  intros Heq.
  assert (Hin : hyphen ∈ chars a ++ hyphen :: b)
    by (apply elem_of_app; right; apply elem_of_cons; by left).
  rewrite Heq in Hin. apply list_elem_of_In in Hin. simpl in Hin.
  unfold hyphen in Hin. intuition discriminate.
Qed.

(** No pair of organisation and report type has the settings key as its
    cache key. *)
Lemma getCacheKey_not_settings org type : getCacheKey org type ≠ STORAGE_KEY.
Proof.
  intros Heq. apply (f_equal chars) in Heq.
  unfold getCacheKey in Heq. rewrite !CacheKeys.chars_app in Heq.
  simpl in Heq. simplify_eq.
  by eapply settings_word_hyphen_free.
Qed.

(** The settings key does not lie under the prefix of an organisation. *)
Lemma settings_outside_orgPrefix org :
  startsWith STORAGE_KEY (orgPrefix org) = false.
Proof.
  destruct (startsWith STORAGE_KEY (orgPrefix org)) eqn:Hpre; [| done].
  apply CacheLaws.prefix_chars in Hpre as [r Heq].
  unfold orgPrefix in Heq. rewrite !CacheKeys.chars_app in Heq.
  simpl in Heq. simplify_eq.
  match goal with
  | Heq : _ = (chars org ++ _) ++ r |- _ =>
      rewrite <- (assoc_L (++)) in Heq; symmetry in Heq
  end.
  exfalso. by eapply settings_word_hyphen_free.
Qed.

Section WithPlatform.
Context `{Platform}.

(** A read of the settings, as a function of the stored text. *)
Lemma getUserSettings_run (st : Storage) :
  getUserSettings st
  = (Ok (match st !! STORAGE_KEY with
         | Some text =>
             if String.eqb text "" then JObj []
             else default (JObj []) (JSON_parse text)
         | None => JObj []
         end), st).
Proof.
  unfold getUserSettings, try_catch, bind, getItem.
  destruct (st !! STORAGE_KEY) as [text|]; simpl; [| done].
  destruct (String.eqb text ""); simpl; [done |].
  unfold parse. by destruct (JSON_parse text).
Qed.

(** X20: the cache never touches the stored settings, although their key
    starts with the prefix of the cache: a read, the removal of one
    report and the removal of the reports of an organisation leave the
    settings entry as it is, whatever the organisation and the report
    type; and [resetToDefaults] leaves every cache entry as it is. *)
Theorem settings_untouched_by_cache now org type (st : Storage) :
  (exists v st',
      loadFromCache now org type st = (Ok v, st') /\
      st' !! STORAGE_KEY = st !! STORAGE_KEY) /\
  (exists st',
      clearCache org type st = (Ok tt, st') /\
      st' !! STORAGE_KEY = st !! STORAGE_KEY) /\
  (exists st',
      clearOrgCaches org st = (Ok tt, st') /\
      st' !! STORAGE_KEY = st !! STORAGE_KEY) /\
  (exists st',
      resetToDefaults st = (Ok tt, st') /\
      st' !! getCacheKey org type = st !! getCacheKey org type).
Proof.
  pose proof (getCacheKey_not_settings org type) as Hkey.
  split; [| split; [| split]].
  - rewrite CacheLaws.loadFromCache_run. eexists _, _. split; [reflexivity |].
    destruct (read_removes now (st !! getCacheKey org type)); [| done].
    by rewrite lookup_delete_ne.
  - exists (delete (getCacheKey org type) st). split; [reflexivity |].
    by rewrite lookup_delete_ne.
  - destruct (CacheLaws.clearOrgCaches_spec org st) as (st' & Hrun & Hlook).
    exists st'. split; [exact Hrun |].
    by rewrite Hlook, settings_outside_orgPrefix.
  - exists (delete STORAGE_KEY st). split; [reflexivity |].
    by rewrite lookup_delete_ne.
Qed.



(** X22: settings saved are the settings read, when the store takes the
    text and the codec returns the value from it; when the store rejects
    the text, the save is dropped without an error and the store is as
    before.  After [resetToDefaults] the settings read are empty. *)
Theorem saveUserSettings_getUserSettings settings text (st : Storage) :
  settings ≠ JUndefined ->
  JSON_stringify settings = Some text ->
  (storage_fits st STORAGE_KEY text = true ->
   text ≠ "" ->
   JSON_parse text = Some settings ->
   exists st1,
     saveUserSettings settings st = (Ok tt, st1) /\
     getUserSettings st1 = (Ok settings, st1) /\
     exists st2,
       resetToDefaults st1 = (Ok tt, st2) /\
       getUserSettings st2 = (Ok (JObj []), st2)) /\
  (storage_fits st STORAGE_KEY text = false ->
   saveUserSettings settings st = (Ok tt, st)).
Proof.
  intros Hdef Hstr.
  assert (Hsave : saveUserSettings settings st
                  = if storage_fits st STORAGE_KEY text
                    then (Ok tt, <[STORAGE_KEY := text]> st)
                    else (Ok tt, st)).
  { unfold saveUserSettings, try_catch, bind, stringify, setItem.
    destruct settings; try done; rewrite Hstr; simpl;
      by destruct (storage_fits st STORAGE_KEY text). }
  rewrite Hsave. split.
  - intros -> Hne Hparse. eexists. split; [reflexivity |]. split.
    + rewrite getUserSettings_run, lookup_insert_eq.
      apply String.eqb_neq in Hne. by rewrite Hne, Hparse.
    + eexists. split; [reflexivity |].
      by rewrite getUserSettings_run, lookup_delete_eq.
  - by intros ->.
Qed.

End WithPlatform.
End ConfigFacts.

(* =================================================================== *)
(** ** The laws on concrete stores, servers and repositories *)
(* =================================================================== *)

Module CacheLawScenarios.
Import JS Cache CacheOrg TableHost.
Import CacheKeySpec CacheFixture.

(** A read of an expired report next to a foreign entry. *)
Lemma loadFromCache_only_removes_own_key_witness :
  exists v st',
    loadFromCache 86401001 "lima-zulu" "cleanup"
      (<[key := report_text]> {[ "theme" := broken_text ]}) = (Ok v, st') /\
    st' !! "theme" = Some broken_text.
Proof.
  destruct (CacheLaws.loadFromCache_only_removes_own_key 86401001
              "lima-zulu" "cleanup"
              (<[key := report_text]> {[ "theme" := broken_text ]}))
    as (v & st' & Hrun & Hother & _).
  exists v, st'. split; [exact Hrun |].
  rewrite (Hother "theme"); [reflexivity | discriminate].
Defined.

(** A read of [mixed] at the time of its sweep. *)
Lemma clearExpiredCaches_preserves_reads_witness :
  exists st1 v st2 st2',
    clearExpiredCaches 100000000 mixed = (Ok tt, st1) /\
    loadFromCache 100000000 "lima-zulu" "home" mixed = (Ok v, st2) /\
    loadFromCache 100000000 "lima-zulu" "home" st1 = (Ok v, st2').
Proof.
  apply (CacheLaws.clearExpiredCaches_preserves_reads 100000000 100000000
           "lima-zulu" "home" mixed).
  lia.
Defined.

(** A write of the clean-up report into [mixed], and a read of the home
    report. *)
Lemma saveToCache_preserves_other_reads_witness :
  exists st1 v st2 st2',
    saveToCache 90000000 "lima-zulu" "cleanup" (JStr "report") 24 mixed
      = (Ok tt, st1) /\
    loadFromCache 100000000 "lima-zulu" "home" mixed = (Ok v, st2) /\
    loadFromCache 100000000 "lima-zulu" "home" st1 = (Ok v, st2').
Proof.
  apply (CacheLaws.saveToCache_preserves_other_reads 90000000 100000000
           "lima-zulu" "cleanup" (JStr "report") 24 "lima-zulu" "home" mixed).
  - discriminate.
  - lia.
Defined.

Lemma clearCache_then_miss_witness :
  exists st',
    clearCache "lima-zulu" "home" mixed = (Ok tt, st') /\
    loadFromCache 100000000 "lima-zulu" "home" st' = (Ok JNull, st') /\
    st' !! expired_key = Some report_text.
Proof.
  destruct (CacheLaws.clearCache_then_miss 100000000 "lima-zulu" "home" mixed)
    as (st' & Hrun & Hmiss & Hother).
  exists st'. split; [exact Hrun |]. split; [exact Hmiss |].
  rewrite (Hother expired_key); [reflexivity | discriminate].
Defined.

Lemma clearOrgCaches_then_miss_witness :
  exists st',
    clearOrgCaches "lima-zulu" mixed = (Ok tt, st') /\
    loadFromCache 100000000 "lima-zulu" "home" st' = (Ok JNull, st') /\
    st' !! "theme" = Some broken_text.
Proof.
  destruct (CacheLaws.clearOrgCaches_then_miss "lima-zulu" mixed)
    as (st' & Hrun & Hmiss & Hother).
  exists st'. split; [exact Hrun |]. split; [apply Hmiss |].
  rewrite (Hother "theme"); reflexivity.
Defined.

(** Clearing [acme] in a store that also holds reports of [globex] and of
    [acme-labs]. *)
Lemma clearOrgCaches_reach_witness :
  exists st',
    clearOrgCaches "acme"
      (<[getCacheKey "acme" "home" := fresh_text]>
         (<[getCacheKey "globex" "home" := fresh_text]>
            {[ getCacheKey "acme-labs" "home" := fresh_text ]}))
      = (Ok tt, st') /\
    st' !! getCacheKey "globex" "home" = Some fresh_text /\
    st' !! getCacheKey "acme-labs" "home" = None.
Proof.
  destruct (CacheLaws.clearOrgCaches_reach "acme"
              (<[getCacheKey "acme" "home" := fresh_text]>
                 (<[getCacheKey "globex" "home" := fresh_text]>
                    {[ getCacheKey "acme-labs" "home" := fresh_text ]})))
    as (st' & Hrun & Hkeep & Hlose).
  exists st'. split; [exact Hrun |]. split.
  - rewrite (Hkeep "globex" "home").
    + reflexivity.
    + apply (bool_decide_unpack _). by vm_compute.
    + apply (bool_decide_unpack _). by vm_compute.
    + discriminate.
  - exact (Hlose "labs" "home").
Defined.

End CacheLawScenarios.

Module PaginationScenarios.
Import JS GitHubApi.
Import GitHubClient PaginationSpec PaginationFixture.

Lemma getOrgRepositories_concatenates_pages_witness :
  getOrgRepositories 2 paged "acme" = Some (Ok (fullPage ++ shortPage)).
Proof.
  apply (PaginationFacts.getOrgRepositories_concatenates_pages
           paged "acme" [fullPage] shortPage 2).
  - repeat constructor.
  - discriminate.
  - intros [|i] p Hp; simpl in Hp; [| discriminate].
    injection Hp as <-. reflexivity.
  - reflexivity.
  - simpl. lia.
Defined.

Lemma getOrgRepositories_propagates_failure_witness :
  getOrgRepositories 2 cut "acme" = Some (Throw TypeError).
Proof.
  apply (PaginationFacts.getOrgRepositories_propagates_failure
           cut "acme" [fullPage] TypeError 2).
  - repeat constructor.
  - intros [|i] p Hp; simpl in Hp; [| discriminate].
    injection Hp as <-. reflexivity.
  - reflexivity.
  - simpl. lia.
Defined.

Lemma getRepoBranches_pages_or_partial_witness :
  getRepoBranches 2 paged "acme" "site" = Some (fullPage ++ shortPage) /\
  getRepoBranches 2 cut "acme" "site" = Some fullPage.
Proof.
  split.
  - apply (proj1 (PaginationFacts.getRepoBranches_pages_or_partial
                    paged "acme" "site" [fullPage] 2
                    ltac:(repeat constructor)
                    ltac:(intros [|i] p Hp; simpl in Hp; [| discriminate];
                          injection Hp as <-; reflexivity)
                    ltac:(simpl; lia))
             shortPage); [discriminate | reflexivity].
  - apply (proj2 (PaginationFacts.getRepoBranches_pages_or_partial
                    cut "acme" "site" [fullPage] 2
                    ltac:(repeat constructor)
                    ltac:(intros [|i] p Hp; simpl in Hp; [| discriminate];
                          injection Hp as <-; reflexivity)
                    ltac:(simpl; lia))
             TypeError); reflexivity.
Defined.

End PaginationScenarios.

Module ContentsScenarios.
Import JS JSArray Builders Builders.CleanupNeeded.
Import CleanupSpec ContentsSpec BuilderFixture ContentsFixture.


(** The two branches of [quiet] are stale and by one author. *)
Lemma staleBranchStep_counts_stale_branches_witness :
  exists authors,
    value_of (staleBranchStep api cfg org quiet
                (getRepoBranches api org "quiet"))
    = [ DetailRow "quiet" "https://github.com/lima-zulu/quiet" 2 2 authors ] /\
    NoDup authors /\
    forall a, a ∈ authors <->
              exists d,
                d ∈ staleDetails cfg
                      (branchDetailsOf api org quiet
                         (getRepoBranches api org "quiet")) /\
                authorOf d = Some a.
Proof.
  apply (proj2 (ContentsFacts.staleBranchStep_counts_stale_branches
                  api cfg org quiet (getRepoBranches api org "quiet")
                  ltac:(vm_compute; discriminate))).
  discriminate.
Defined.

End ContentsScenarios.

Module ConfigScenarios.
Import JS Cache Config TableHost.
Import ConfigSpec ConfigFixture.


Lemma saveUserSettings_getUserSettings_witness :
  exists st1,
    @saveUserSettings settings_host chosen ∅ = (Ok tt, st1) /\
    @getUserSettings settings_host st1 = (Ok chosen, st1) /\
    exists st2,
      resetToDefaults st1 = (Ok tt, st2) /\
      @getUserSettings settings_host st2 = (Ok (JObj []), st2).
Proof.
  apply (proj1 (@ConfigFacts.saveUserSettings_getUserSettings settings_host
                  chosen chosen_text ∅ ltac:(discriminate) eq_refl));
    [reflexivity | discriminate | reflexivity].
Defined.

End ConfigScenarios.
